(** * TrustLines: bilateral credit lines with payment rippling

    A shallow embedding of [src/algorand/contracts/trust_lines.py].

    The contract is a PyTeal program: Python code that builds one expression
    tree, which the ledger evaluates once per application call.  The embedding
    gives every PyTeal combinator the source uses its meaning as a Rocq
    function of the call and of the application state, and then writes the
    subroutines of [approval_program] with those combinators, line by line.

    Reading conventions, taken from PyTeal and from the virtual machine that
    runs the compiled program:
    - integers are unsigned and 64 bits wide.  A literal [Int(n)] denotes a
      value only for [0 <= n < 2^64], and [+], [-] and [*] make the program
      fail when their result leaves that range.  The source writes [Int(-1)]
      and [Int(0) - limit2]: the first has no value at all (PyTeal refuses to
      build it; here the expression fails when it is evaluated, so that the
      rest of the program keeps its meaning), the second fails for every
      positive [limit2];
    - byte strings are [string]s (one [ascii] per byte); [<] on two byte
      strings, which the source uses to order the two accounts of a line, is
      the byte-wise lexicographic order;
    - a failing [Assert] (or any other evaluation error) rejects the call, and
      a rejected call leaves the ledger as it was: a subroutine returns either
      an error or the state it produced;
    - opt-in bookkeeping and account availability belong to the host ledger
      and are not modelled: local state is a finite map from (account, key). *)

From Stdlib Require Import ZArith String Ascii List Lia Bool.
From stdpp Require Import base option gmap strings.

Import ListNotations.
Open Scope Z_scope.

(** ** Values, calls and application state *)

Inductive TealValue :=
  | VUint (n : Z)
  | VBytes (b : string).

Inductive OnComplete :=
  | NoOp | OptIn | CloseOut | ClearState | UpdateApplication | DeleteApplication.

Definition OnComplete_code (oc : OnComplete) : Z :=
  match oc with
  | NoOp => 0 | OptIn => 1 | CloseOut => 2
  | ClearState => 3 | UpdateApplication => 4 | DeleteApplication => 5
  end.

(** What one application call brings with it: the fields of [Txn] and of
    [Global] that the program reads. *)
Record Call := mkCall {
  sender : string;
  application_id : Z;
  on_completion : OnComplete;
  application_args : list string;
  group_size : Z
}.

(** Global state, local state (keyed by account and key) and scratch space. *)
Record State := mkState {
  globals : gmap string TealValue;
  locals : gmap (string * string) TealValue;
  scratch : gmap nat TealValue
}.

Inductive Failure :=
  | AssertFailed
  | TypeMismatch
  | ArgOutOfRange
  | BtoiTooLong
  | DivideByZero
  | NoCondMatched
  | IntOutOfRange
  | Overflow
  | Underflow.

Inductive result (A : Type) :=
  | Ok (a : A)
  | Err (e : Failure).
Arguments Ok {A} a.
Arguments Err {A} e.

#[global] Instance result_ret : MRet result := fun _ a => Ok a.
#[global] Instance result_bind : MBind result := fun _ _ f m =>
  match m with Ok a => f a | Err e => Err e end.

(** A statement either falls through to the next one or returns a value. *)
Inductive Flow :=
  | Next (s : State)
  | Returned (v : TealValue) (s : State).

Definition Expr := Call -> State -> result TealValue.
Definition Stmt := Call -> State -> result Flow.

Declare Scope teal_scope.
Delimit Scope teal_scope with teal.
Bind Scope teal_scope with Expr.

(** ** Byte-string primitives *)

Fixpoint be_value (acc : Z) (s : string) : Z :=
  match s with
  | EmptyString => acc
  | String a r => be_value (acc * 256 + Z.of_N (N_of_ascii a)) r
  end.

Fixpoint be_bytes (k : nat) (n : Z) : string :=
  match k with
  | O => EmptyString
  | S k' => String (ascii_of_N (Z.to_N ((n / 256 ^ Z.of_nat k') mod 256)))
                   (be_bytes k' n)
  end.

Definition as_uint (v : TealValue) : result Z :=
  match v with VUint n => Ok n | VBytes _ => Err TypeMismatch end.

Definition as_bytes (v : TealValue) : result string :=
  match v with VBytes b => Ok b | VUint _ => Err TypeMismatch end.

Definition of_bool (b : bool) : TealValue := VUint (if b then 1 else 0).

(** Comparison of two values of the same type. *)
Definition compare_values (x y : TealValue) : result comparison :=
  match x, y with
  | VUint a, VUint b => Ok (a ?= b)
  | VBytes a, VBytes b => Ok (String.compare a b)
  | _, _ => Err TypeMismatch
  end.

(** ** PyTeal expressions *)

(** [Int(n)] is a 64-bit unsigned literal. *)
Definition Int (n : Z) : Expr := fun _ _ =>
  if bool_decide (0 <= n < 2 ^ 64) then Ok (VUint n) else Err IntOutOfRange.
Definition Bytes (b : string) : Expr := fun _ _ => Ok (VBytes b).

Definition Txn_sender : Expr := fun c _ => Ok (VBytes (sender c)).
Definition Txn_application_id : Expr := fun c _ => Ok (VUint (application_id c)).
Definition Txn_on_completion : Expr :=
  fun c _ => Ok (VUint (OnComplete_code (on_completion c))).
Definition Txn_application_args (i : nat) : Expr := fun c _ =>
  match nth_error (application_args c) i with
  | Some b => Ok (VBytes b)
  | None => Err ArgOutOfRange
  end.
Definition Global_group_size : Expr := fun c _ => Ok (VUint (group_size c)).
Definition OnComplete_OptIn : Expr := Int (OnComplete_code OptIn).
Definition OnComplete_CloseOut : Expr := Int (OnComplete_code CloseOut).

(** The result of [+], [-] and [*]: the operation fails when the exact
    result is not a 64-bit unsigned integer. *)
Definition uint64_result (n : Z) : result TealValue :=
  if bool_decide (n < 0) then Err Underflow
  else if bool_decide (2 ^ 64 <= n) then Err Overflow
  else Ok (VUint n).

Definition arith (f : Z -> Z -> Z) (a b : Expr) : Expr := fun c s =>
  x ← a c s; y ← b c s;
  m ← as_uint x; n ← as_uint y;
  uint64_result (f m n).

Definition Add : Expr -> Expr -> Expr := arith Z.add.
Definition Minus : Expr -> Expr -> Expr := arith Z.sub.
Definition Mul : Expr -> Expr -> Expr := arith Z.mul.
(** [/] fails on a zero divisor only: the quotient of two 64-bit unsigned
    integers is one. *)
Definition Div (a b : Expr) : Expr := fun c s =>
  x ← a c s; y ← b c s;
  m ← as_uint x; n ← as_uint y;
  if n =? 0 then Err DivideByZero else Ok (VUint (m / n)).

Definition relation (test : comparison -> bool) (a b : Expr) : Expr := fun c s =>
  x ← a c s; y ← b c s;
  r ← compare_values x y;
  Ok (of_bool (test r)).

Definition Lt : Expr -> Expr -> Expr :=
  relation (fun r => match r with Datatypes.Lt => true | _ => false end).
Definition Gt : Expr -> Expr -> Expr :=
  relation (fun r => match r with Datatypes.Gt => true | _ => false end).
Definition Le : Expr -> Expr -> Expr :=
  relation (fun r => match r with Datatypes.Gt => false | _ => true end).
Definition Ge : Expr -> Expr -> Expr :=
  relation (fun r => match r with Datatypes.Lt => false | _ => true end).
Definition Eq : Expr -> Expr -> Expr :=
  relation (fun r => match r with Datatypes.Eq => true | _ => false end).
Definition Neq : Expr -> Expr -> Expr :=
  relation (fun r => match r with Datatypes.Eq => false | _ => true end).

Notation "a + b" := (Add a b) : teal_scope.
Notation "a - b" := (Minus a b) : teal_scope.
Notation "a * b" := (Mul a b) : teal_scope.
Notation "a / b" := (Div a b) : teal_scope.
Notation "a < b" := (Lt a b) : teal_scope.
Notation "a > b" := (Gt a b) : teal_scope.
Notation "a <= b" := (Le a b) : teal_scope.
Notation "a >= b" := (Ge a b) : teal_scope.
Notation "a == b" := (Eq a b) (at level 70, no associativity) : teal_scope.
Notation "a != b" := (Neq a b) (at level 70, no associativity) : teal_scope.

(** [And] and [Or] evaluate both operands: TEAL's [&&] and [||] are plain
    stack operations. *)
Definition And (a b : Expr) : Expr := fun c s =>
  x ← a c s; y ← b c s;
  m ← as_uint x; n ← as_uint y;
  Ok (of_bool (negb (m =? 0) && negb (n =? 0))).

Definition Or (a b : Expr) : Expr := fun c s =>
  x ← a c s; y ← b c s;
  m ← as_uint x; n ← as_uint y;
  Ok (of_bool (negb (m =? 0) || negb (n =? 0))).

(** [If(c, a, b)] evaluates only the branch it takes. *)
Definition If (cnd a b : Expr) : Expr := fun c s =>
  x ← cnd c s; n ← as_uint x;
  if n =? 0 then b c s else a c s.

Definition Btoi (e : Expr) : Expr := fun c s =>
  x ← e c s; b ← as_bytes x;
  if (String.length b <=? 8)%nat then Ok (VUint (be_value 0 b)) else Err BtoiTooLong.

Definition Itob (e : Expr) : Expr := fun c s =>
  x ← e c s; n ← as_uint x;
  Ok (VBytes (be_bytes 8 n)).

Definition Len (e : Expr) : Expr := fun c s =>
  x ← e c s; b ← as_bytes x;
  Ok (VUint (Z.of_nat (String.length b))).

(** A key that was never written reads as the integer 0. *)
Definition App_globalGet (key : Expr) : Expr := fun c s =>
  k ← key c s; k ← as_bytes k;
  Ok (default (VUint 0) (globals s !! k)).

Definition App_localGet (account key : Expr) : Expr := fun c s =>
  a ← account c s; a ← as_bytes a;
  k ← key c s; k ← as_bytes k;
  Ok (default (VUint 0) (locals s !! (a, k))).

(** ** PyTeal statements *)

Definition Assert (cnd : Expr) : Stmt := fun c s =>
  x ← cnd c s; n ← as_uint x;
  if n =? 0 then Err AssertFailed else Ok (Next s).

Definition Return (e : Expr) : Stmt := fun c s =>
  v ← e c s; Ok (Returned v s).

Definition App_globalPut (key value : Expr) : Stmt := fun c s =>
  k ← key c s; k ← as_bytes k;
  v ← value c s;
  Ok (Next (mkState (<[k := v]> (globals s)) (locals s) (scratch s))).

Definition App_localPut (account key value : Expr) : Stmt := fun c s =>
  a ← account c s; a ← as_bytes a;
  k ← key c s; k ← as_bytes k;
  v ← value c s;
  Ok (Next (mkState (globals s) (<[(a, k) := v]> (locals s)) (scratch s))).

Fixpoint Seq (body : list Stmt) : Stmt := fun c s =>
  match body with
  | [] => Ok (Next s)
  | st :: rest =>
      f ← st c s;
      match f with
      | Next s' => Seq rest c s'
      | Returned v s' => Ok (Returned v s')
      end
  end.

(** [If(c).Then(body)] *)
Definition If_Then (cnd : Expr) (body : Stmt) : Stmt := fun c s =>
  x ← cnd c s; n ← as_uint x;
  if n =? 0 then Ok (Next s) else body c s.

(** [Cond([c1, b1], [c2, b2], ...)] runs the body of the first condition that
    holds and fails when none does. *)
Fixpoint Cond (branches : list (Expr * Stmt)) : Stmt := fun c s =>
  match branches with
  | [] => Err NoCondMatched
  | (cnd, body) :: rest =>
      x ← cnd c s; n ← as_uint x;
      if n =? 0 then Cond rest c s else body c s
  end.

(** A [ScratchVar] is a scratch slot; a slot never stored to reads as 0. *)
Record ScratchVar := mkScratchVar { slot : nat }.

Definition store (v : ScratchVar) (value : Expr) : Stmt := fun c s =>
  x ← value c s;
  Ok (Next (mkState (globals s) (locals s) (<[slot v := x]> (scratch s)))).

Definition load (v : ScratchVar) : Expr := fun _ s =>
  Ok (default (VUint 0) (scratch s !! slot v)).

(** ** The approval program *)

Section ApprovalProgram.
Local Open Scope teal_scope.
Local Open Scope string_scope.

(** State keys *)
Definition admin : Expr := Bytes "admin".
Definition next_tl_id : Expr := Bytes "next_tl_id".

Definition tl_account1 : Expr := Bytes "account1".
Definition tl_account2 : Expr := Bytes "account2".
Definition tl_asset_id : Expr := Bytes "asset_id".
Definition tl_limit1 : Expr := Bytes "limit1".
Definition tl_limit2 : Expr := Bytes "limit2".
Definition tl_balance : Expr := Bytes "balance".
Definition tl_quality_in : Expr := Bytes "q_in".
Definition tl_quality_out : Expr := Bytes "q_out".
Definition tl_allow_rippling : Expr := Bytes "ripple".

Definition on_creation : Stmt :=
  Seq [
    App_globalPut admin Txn_sender;
    App_globalPut next_tl_id (Int 0);
    Return (Int 1)
  ].

Definition create_trust_line : Stmt :=
  let counterparty := Txn_application_args 1 in
  let asset_id := Btoi (Txn_application_args 2) in
  let limit1 := Btoi (Txn_application_args 3) in
  let limit2 := Btoi (Txn_application_args 4) in
  let allow_ripple := Btoi (Txn_application_args 5) in

  let account1 := If (Txn_sender < counterparty) Txn_sender counterparty in
  let account2 := If (Txn_sender < counterparty) counterparty Txn_sender in

  Seq [
    Assert (limit1 > Int 0);
    Assert (limit2 > Int 0);
    Assert (Txn_sender != counterparty);

    App_localPut account1 tl_account1 account1;
    App_localPut account1 tl_account2 account2;
    App_localPut account1 tl_asset_id (Itob asset_id);
    App_localPut account1 tl_limit1 limit1;
    App_localPut account1 tl_limit2 limit2;
    App_localPut account1 tl_balance (Int 0);
    App_localPut account1 tl_quality_in (Int 1000000);
    App_localPut account1 tl_quality_out (Int 1000000);
    App_localPut account1 tl_allow_rippling allow_ripple;

    App_globalPut next_tl_id (App_globalGet next_tl_id + Int 1);
    Return (Int 1)
  ].

Definition send_payment : Stmt :=
  let recipient := Txn_application_args 1 in
  let amount := Btoi (Txn_application_args 2) in

  let account1 := If (Txn_sender < recipient) Txn_sender recipient in
  let account2 := If (Txn_sender < recipient) recipient Txn_sender in

  let current_balance := App_localGet account1 tl_balance in
  let limit1_val := App_localGet account1 tl_limit1 in
  let limit2_val := App_localGet account1 tl_limit2 in

  let direction := If (Txn_sender == account1) (Int 1) (Int (-1)) in
  let new_balance := current_balance + (amount * direction) in

  Seq [
    Assert (amount > Int 0);
    Assert (Txn_sender != recipient);
    Assert (
      Or
        (And (new_balance >= Int 0) (new_balance <= limit1_val))
        (And (new_balance < Int 0) (new_balance >= Int 0 - limit2_val))
    );
    App_localPut account1 tl_balance new_balance;
    Return (Int 1)
  ].

Definition current_amount : ScratchVar := mkScratchVar 0.

Definition send_rippling : Stmt :=
  let num_hops := Btoi (Txn_application_args 1) in
  let amount := Btoi (Txn_application_args 2) in
  let init :=
    Seq [Assert (num_hops > Int 0); Assert (num_hops <= Int 6);
         Assert (amount > Int 0); store current_amount amount] in
  let validate :=
    Seq [If_Then (num_hops >= Int 1) (Assert (Len (Txn_application_args 3) == Int 32));
         If_Then (num_hops >= Int 2) (Assert (Len (Txn_application_args 4) == Int 32));
         If_Then (num_hops >= Int 3) (Assert (Len (Txn_application_args 5) == Int 32));
         If_Then (num_hops >= Int 4) (Assert (Len (Txn_application_args 6) == Int 32));
         If_Then (num_hops >= Int 5) (Assert (Len (Txn_application_args 7) == Int 32));
         If_Then (num_hops >= Int 6) (Assert (Len (Txn_application_args 8) == Int 32))] in
  let execute :=
    If_Then (num_hops >= Int 1)
      (store current_amount (load current_amount * Int 999000 / Int 1000000)) in
  Seq [init; validate; execute; Return (Int 1)].

Definition update_quality : Stmt :=
  let counterparty := Txn_application_args 1 in
  let new_quality_in := Btoi (Txn_application_args 2) in
  let new_quality_out := Btoi (Txn_application_args 3) in
  let account1 := If (Txn_sender < counterparty) Txn_sender counterparty in
  Seq [Assert (new_quality_in > Int 0); Assert (new_quality_in <= Int 1000000);
       Assert (new_quality_out > Int 0); Assert (new_quality_out <= Int 1000000);
       App_localPut account1 tl_quality_in new_quality_in;
       App_localPut account1 tl_quality_out new_quality_out;
       Return (Int 1)].

Definition update_rippling : Stmt :=
  let counterparty := Txn_application_args 1 in
  let allow_ripple := Btoi (Txn_application_args 2) in
  let account1 := If (Txn_sender < counterparty) Txn_sender counterparty in
  Seq [Assert (Or (allow_ripple == Int 0) (allow_ripple == Int 1));
       App_localPut account1 tl_allow_rippling allow_ripple;
       Return (Int 1)].

Definition update_limits : Stmt :=
  let counterparty := Txn_application_args 1 in
  let new_limit1 := Btoi (Txn_application_args 2) in
  let new_limit2 := Btoi (Txn_application_args 3) in
  let account1 := If (Txn_sender < counterparty) Txn_sender counterparty in
  let current_balance := App_localGet account1 tl_balance in
  Seq [Assert (new_limit1 > Int 0); Assert (new_limit2 > Int 0);
       Assert (Or (And (current_balance >= Int 0) (new_limit1 >= current_balance))
                  (And (current_balance < Int 0) (new_limit2 >= Int 0 - current_balance)));
       Assert (Global_group_size >= Int 2);
       App_localPut account1 tl_limit1 new_limit1;
       App_localPut account1 tl_limit2 new_limit2;
       Return (Int 1)].

Definition freeze_trust_line : Stmt :=
  let counterparty := Txn_application_args 1 in
  let account1 := If (Txn_sender < counterparty) Txn_sender counterparty in
  Seq [Assert (Txn_sender == App_globalGet admin);
       App_localPut account1 tl_allow_rippling (Int 0);
       App_localPut account1 tl_limit1 (Int 0);
       App_localPut account1 tl_limit2 (Int 0);
       Return (Int 1)].

Definition get_balance : Stmt :=
  let counterparty := Txn_application_args 1 in
  let account1 := If (Txn_sender < counterparty) Txn_sender counterparty in
  Return (Int 1).

Definition get_available_credit : Stmt :=
  let counterparty := Txn_application_args 1 in
  let account1 := If (Txn_sender < counterparty) Txn_sender counterparty in
  let current_balance := App_localGet account1 tl_balance in
  let limit1_val := App_localGet account1 tl_limit1 in
  let limit2_val := App_localGet account1 tl_limit2 in
  let available_1 := If (current_balance >= Int 0) (limit1_val - current_balance) limit1_val in
  let available_2 := If (current_balance <= Int 0) (limit2_val + current_balance) limit2_val in
  Seq [Assert (available_1 >= Int 0); Assert (available_2 >= Int 0); Return (Int 1)].

Definition asa_opt_in : Stmt :=
  let asset_id := Btoi (Txn_application_args 1) in
  Seq [Assert (asset_id > Int 0); Return (Int 1)].

Definition settle_with_asa : Stmt :=
  let counterparty := Txn_application_args 1 in
  let settle_amount := Btoi (Txn_application_args 2) in
  let account1 := If (Txn_sender < counterparty) Txn_sender counterparty in
  let current_balance := App_localGet account1 tl_balance in
  let direction := If (Txn_sender == account1) (Int 1) (Int (-1)) in
  let new_balance := current_balance - (settle_amount * direction) in
  Seq [Assert (settle_amount > Int 0); Assert (Global_group_size >= Int 2);
       App_localPut account1 tl_balance new_balance;
       Return (Int 1)].

(** A subroutine call in a branch of [Cond] is the last thing the program
    does, so the value the subroutine returns is the value of the program. *)
Definition approval_program : Stmt :=
  Cond [
    (Txn_application_id == Int 0, on_creation);
    (Txn_on_completion == OnComplete_OptIn, Return (Int 1));
    (Txn_application_args 0 == Bytes "create", create_trust_line);
    (Txn_application_args 0 == Bytes "send", send_payment);
    (Txn_on_completion == OnComplete_CloseOut, Return (Int 1));
    (Txn_application_args 0 == Bytes "ripple", send_rippling);
    (Txn_application_args 0 == Bytes "quality", update_quality);
    (Txn_application_args 0 == Bytes "ripple_set", update_rippling);
    (Txn_application_args 0 == Bytes "limits", update_limits);
    (Txn_application_args 0 == Bytes "freeze", freeze_trust_line);
    (Txn_application_args 0 == Bytes "balance", get_balance);
    (Txn_application_args 0 == Bytes "credit", get_available_credit);
    (Txn_application_args 0 == Bytes "asa_opt", asa_opt_in);
    (Txn_application_args 0 == Bytes "settle", settle_with_asa)
  ].

End ApprovalProgram.

(** ** Vocabulary for the statements *)

#[global] Instance TealValue_eq_dec : EqDecision TealValue.
Proof. solve_decision. Defined.

(** The two roles of a line, as every subroutine computes them from the
    sender and the counterparty argument ([account1] and [account2]).  The
    record of a line lives in the local state of [account1], under keys that
    do not mention [account2]. *)
Definition account1_of (p q : string) : string := if String.ltb p q then p else q.
Definition account2_of (p q : string) : string := if String.ltb p q then q else p.
Definition canonicalize (p q : string) : string * string :=
  (account1_of p q, account2_of p q).

(** The [i]-th application argument, and its value under [Btoi]. *)
Definition arg (c : Call) (i : nat) : option string :=
  nth_error (application_args c) i.
Definition arg_uint (c : Call) (i : nat) : option Z :=
  match arg c i with
  | Some b => if (String.length b <=? 8)%nat then Some (be_value 0 b) else None
  | None => None
  end.

(** What [App.localGet] and [App.globalGet] read. *)
Definition local_value (s : State) (a k : string) : TealValue :=
  default (VUint 0) (locals s !! (a, k)).
Definition global_value (s : State) (k : string) : TealValue :=
  default (VUint 0) (globals s !! k).

Definition set_local (a k : string) (v : TealValue) (s : State) : State :=
  mkState (globals s) (<[(a, k) := v]> (locals s)) (scratch s).
Definition set_global (k : string) (v : TealValue) (s : State) : State :=
  mkState (<[k := v]> (globals s)) (locals s) (scratch s).
Definition set_scratch (i : nat) (v : TealValue) (s : State) : State :=
  mkState (globals s) (locals s) (<[i := v]> (scratch s)).

(** A subroutine approves the call and leaves state [s']. *)
Definition succeeds (p : Stmt) (c : Call) (s s' : State) : Prop :=
  p c s = Ok (Returned (VUint 1) s').

(** The record that [create_trust_line] writes for sender [p], counterparty
    [q] and the decoded arguments, and the counter it increments. *)
Definition created (p q : string) (asset_id limit1 limit2 allow_ripple k : Z)
    (s : State) : State :=
  let a1 := account1_of p q in
  set_global "next_tl_id" (VUint (k + 1))
    (set_local a1 "ripple" (VUint allow_ripple)
    (set_local a1 "q_out" (VUint 1000000)
    (set_local a1 "q_in" (VUint 1000000)
    (set_local a1 "balance" (VUint 0)
    (set_local a1 "limit2" (VUint limit2)
    (set_local a1 "limit1" (VUint limit1)
    (set_local a1 "asset_id" (VBytes (be_bytes 8 asset_id))
    (set_local a1 "account2" (VBytes (account2_of p q))
    (set_local a1 "account1" (VBytes a1) s))))))))).

(** What [freeze_trust_line] writes. *)
Definition frozen (a1 : string) (s : State) : State :=
  set_local a1 "limit2" (VUint 0)
    (set_local a1 "limit1" (VUint 0)
    (set_local a1 "ripple" (VUint 0) s)).

(** The pair of [p] and [q] has a record: the two account fields that
    [create_trust_line] writes are there. *)
Definition has_record (s : State) (p q : string) : bool :=
  bool_decide (locals s !! (account1_of p q, "account1")
               = Some (VBytes (account1_of p q)))
  && bool_decide (locals s !! (account1_of p q, "account2")
                  = Some (VBytes (account2_of p q))).

(** The stored line of low account [a] is within its limits:
    [-limit2 <= balance <= limit1]. *)
Definition line_bounded (s : State) (a : string) : bool :=
  match local_value s a "limit1", local_value s a "limit2",
        local_value s a "balance" with
  | VUint l1, VUint l2, VUint b => bool_decide (- l2 <= b) && bool_decide (b <= l1)
  | _, _, _ => false
  end.

(** The check that [validate] of [send_rippling] makes for hop [k] when the
    call has [n] hops: the hop identifier, argument [2 + k], is 32 bytes. *)
Definition hop_ok (c : Call) (n : Z) (k : nat) : bool :=
  if bool_decide (Z.of_nat k <= n) then
    match arg c (2 + k) with
    | Some h => bool_decide (Z.of_nat (String.length h) = 32)
    | None => false
    end
  else true.

Definition hops_ok (c : Call) (n : Z) : bool :=
  forallb (hop_ok c n) [1; 2; 3; 4; 5; 6]%nat.

(** The operations of the contract, named as [approval_program] names them. *)
Inductive Operation :=
  | op_create | op_send | op_ripple | op_quality | op_ripple_set | op_limits
  | op_freeze | op_balance | op_credit | op_asa_opt | op_settle.

Definition subroutine (o : Operation) : Stmt :=
  match o with
  | op_create => create_trust_line
  | op_send => send_payment
  | op_ripple => send_rippling
  | op_quality => update_quality
  | op_ripple_set => update_rippling
  | op_limits => update_limits
  | op_freeze => freeze_trust_line
  | op_balance => get_balance
  | op_credit => get_available_credit
  | op_asa_opt => asa_opt_in
  | op_settle => settle_with_asa
  end.

(** A sequence of calls, every one of which is approved.  Scratch space does
    not outlive a call. *)
Fixpoint run_calls (calls : list (Operation * Call)) (s : State) : option State :=
  match calls with
  | [] => Some s
  | (o, c) :: rest =>
      match subroutine o c s with
      | Ok (Returned (VUint 1) s') =>
          run_calls rest (mkState (globals s') (locals s') ∅)
      | _ => None
      end
  end.

(** Following the specification's words (section 4.4), not the code:
    [forwarded[0] = amount],
    [forwarded[k] = floor(forwarded[k-1] * 999000 / 1000000)]. *)
Fixpoint spec_forwarded (amount : Z) (k : nat) : Z :=
  match k with
  | O => amount
  | S k' => spec_forwarded amount k' * 999000 / 1000000
  end.

(** The first argument that selects each operation in [approval_program]. *)
Definition op_name (o : Operation) : string :=
  match o with
  | op_create => "create" | op_send => "send" | op_ripple => "ripple"
  | op_quality => "quality" | op_ripple_set => "ripple_set" | op_limits => "limits"
  | op_freeze => "freeze" | op_balance => "balance" | op_credit => "credit"
  | op_asa_opt => "asa_opt" | op_settle => "settle"
  end.

(** What the record of low account [a] satisfies on every ledger the program
    can reach: the two limits are integers, both 0 (a line never created, or
    frozen) or both positive (a line created, or with updated limits), and
    the balance is 0. *)
Definition line_inv (s : State) (a : string) : Prop :=
  exists l1 l2,
    local_value s a "limit1" = VUint l1 /\
    local_value s a "limit2" = VUint l2 /\
    local_value s a "balance" = VUint 0 /\
    (l1 = 0 /\ l2 = 0 \/ 0 < l1 /\ 0 < l2).

(** The three fields are integers and the limits are not negative. *)
Definition line_typed (s : State) (a : string) : Prop :=
  exists l1 l2 b,
    local_value s a "limit1" = VUint l1 /\
    local_value s a "limit2" = VUint l2 /\
    local_value s a "balance" = VUint b /\
    0 <= l1 /\ 0 <= l2.

(** ** A small ledger to run the program on *)

Definition alice : string := "AAAAAAAAAAAAAAAAAAAAAAAAAAAAAAAA".
Definition bob : string := "BBBBBBBBBBBBBBBBBBBBBBBBBBBBBBBB".
Definition carol : string := "CCCCCCCCCCCCCCCCCCCCCCCCCCCCCCCC".
Definition dave : string := "DDDDDDDDDDDDDDDDDDDDDDDDDDDDDDDD".
Definition erin : string := "EEEEEEEEEEEEEEEEEEEEEEEEEEEEEEEE".

(** An integer argument, encoded as [Itob] encodes it. *)
Definition uint_arg (n : Z) : string := be_bytes 8 n.

Definition call_of (from : string) (args : list string) (size : Z) : Call :=
  mkCall from 1 NoOp args size.

(** The application right after [on_creation], deployed by [alice]. *)
Definition deployed : State :=
  mkState (<["next_tl_id" := VUint 0]> (<["admin" := VBytes alice]> ∅)) ∅ ∅.

Definition create_call (lim1 lim2 : Z) : Call :=
  call_of alice ["create"; bob; uint_arg 1; uint_arg lim1; uint_arg lim2; uint_arg 1] 1.
Definition send_call (from to : string) (amount : Z) : Call :=
  call_of from ["send"; to; uint_arg amount] 1.
Definition freeze_call : Call := call_of alice ["freeze"; bob] 1.
Definition limits_call (lim1 lim2 : Z) : Call :=
  call_of alice ["limits"; bob; uint_arg lim1; uint_arg lim2] 2.
Definition ripple_call (hops : list string) (amount : Z) : Call :=
  call_of alice
    ("ripple" :: uint_arg (Z.of_nat (List.length hops)) :: uint_arg amount :: hops) 1.

(** The state a list of approved calls leaves, [deployed] if one is refused. *)
Definition after (calls : list (Operation * Call)) : State :=
  default deployed (run_calls calls deployed).

(** [alice] and [bob] have a line with limits 100 and 100. *)
Definition line_100 : State := after [(op_create, create_call 100 100)].

(** The line frozen right after its creation. *)
Definition frozen_line : State :=
  after [(op_create, create_call 100 100); (op_freeze, freeze_call)].

(** ** Vocabulary for the entry point *)

#[global] Instance OnComplete_eq_dec : EqDecision OnComplete.
Proof. solve_decision. Defined.

(** The operation that a first argument names, if it names one. *)
Definition named_operation (p : string) : option Operation :=
  if bool_decide (p = "create") then Some op_create
  else if bool_decide (p = "send") then Some op_send
  else if bool_decide (p = "ripple") then Some op_ripple
  else if bool_decide (p = "quality") then Some op_quality
  else if bool_decide (p = "ripple_set") then Some op_ripple_set
  else if bool_decide (p = "limits") then Some op_limits
  else if bool_decide (p = "freeze") then Some op_freeze
  else if bool_decide (p = "balance") then Some op_balance
  else if bool_decide (p = "credit") then Some op_credit
  else if bool_decide (p = "asa_opt") then Some op_asa_opt
  else if bool_decide (p = "settle") then Some op_settle
  else None.

(** [create] and [send] are tested before the close-out branch of
    [approval_program], the other operations after it. *)
Definition before_close_out (o : Operation) : bool :=
  match o with op_create | op_send => true | _ => false end.

(** How many of the calls are [create] calls. *)
Definition count_creates (calls : list (Operation * Call)) : Z :=
  Z.of_nat (List.length (List.filter
    (fun oc => match fst oc with op_create => true | _ => false end) calls)).

(** [touches a s s']: [s'] is [s] after puts to the local state of account
    [a], to the creation counter and to scratch space, and after nothing
    else. *)
Inductive touches (a : string) (s : State) : State -> Prop :=
  | touches_nothing : touches a s s
  | touches_local k v s' : touches a s s' -> touches a s (set_local a k v s')
  | touches_counter v s' :
      touches a s s' -> touches a s (set_global "next_tl_id" v s')
  | touches_scratch i v s' : touches a s s' -> touches a s (set_scratch i v s').

(** The low account of the line a call addresses, when the call has a
    counterparty argument. *)
Definition addressed (c : Call) (a : string) : Prop :=
  forall q, arg c 1 = Some q -> a = account1_of (sender c) q.

(** Calls that reach [approval_program] in other ways than a plain call. *)
Definition opt_in_call : Call :=
  mkCall bob 1 OptIn ["send"; alice; uint_arg 40] 1.
Definition close_out_call (args : list string) : Call :=
  mkCall alice 1 CloseOut args 2.

(** The fields of a record that each operation can put, read off its
    subroutine. *)
Definition writes (o : Operation) : list string :=
  match o with
  | op_create =>
      ["account1"; "account2"; "asset_id"; "limit1"; "limit2"; "balance";
       "q_in"; "q_out"; "ripple"]
  | op_send => ["balance"]
  | op_ripple => []
  | op_quality => ["q_in"; "q_out"]
  | op_ripple_set => ["ripple"]
  | op_limits => ["limit1"; "limit2"]
  | op_freeze => ["ripple"; "limit1"; "limit2"]
  | op_balance => []
  | op_credit => []
  | op_asa_opt => []
  | op_settle => ["balance"]
  end.

(** A quality field, when it is there, holds an integer in (0, 1000000]. *)
Definition quality_in_range (s : State) (a k : string) : Prop :=
  match locals s !! (a, k) with
  | None => True
  | Some (VUint v) => 0 < v <= 1000000
  | Some (VBytes _) => False
  end.

(** * Proofs *)

(** ** Evaluation lemmas for the combinators *)

Lemma compare_refl_string (p : string) : String.compare p p = Datatypes.Eq.
Proof.
  pose proof (String.compare_antisym p p) as H.
  destruct (String.compare p p); simpl in H; congruence.
Qed.

Lemma test_eq_string (p q : string) :
  match String.compare p q with Datatypes.Eq => true | _ => false end
  = bool_decide (p = q).
Proof.
  case_bool_decide as H.
  - subst. by rewrite compare_refl_string.
  - destruct (String.compare p q) eqn:E; try done.
    by apply String.compare_eq_iff in E.
Qed.

Lemma ltb_irrefl (p : string) : String.ltb p p = false.
Proof. unfold String.ltb. by rewrite compare_refl_string. Qed.

Lemma ltb_asym (p q : string) : String.ltb p q = true -> String.ltb q p = false.
Proof.
  unfold String.ltb. rewrite (String.compare_antisym q p).
  by destruct (String.compare p q).
Qed.

Lemma ltb_total (p q : string) :
  p <> q -> String.ltb p q = false -> String.ltb q p = true.
Proof.
  unfold String.ltb. rewrite (String.compare_antisym q p).
  destruct (String.compare p q) eqn:E; try done.
  intros Hne _. by apply String.compare_eq_iff in E.
Qed.

Lemma be_value_nonneg (s : string) (acc : Z) : 0 <= acc -> 0 <= be_value acc s.
Proof.
  revert acc. induction s as [|a r IH]; intros acc Hacc; simpl; [done|].
  apply IH. lia.
Qed.

Lemma arg_uint_nonneg c i n : arg_uint c i = Some n -> 0 <= n.
Proof.
  unfold arg_uint. destruct (arg c i); [|done].
  destruct (_ <=? _)%nat; [|done].
  intros [= <-]. by apply be_value_nonneg.
Qed.

Lemma be_value_bound s : forall acc,
  0 <= acc -> be_value acc s < (acc + 1) * 256 ^ Z.of_nat (String.length s).
Proof.
  induction s as [|a r IH]; intros acc Hacc.
  - simpl. lia.
  - cbn [be_value String.length].
    pose proof (N_ascii_bounded a) as Ha.
    assert (H256 : 0 < 256 ^ Z.of_nat (String.length r)) by (apply Z.pow_pos_nonneg; lia).
    specialize (IH (acc * 256 + Z.of_N (N_of_ascii a)) ltac:(lia)).
    replace (Z.of_nat (S (String.length r))) with (Z.of_nat (String.length r) + 1) by lia.
    rewrite Z.pow_add_r by lia. rewrite Z.pow_1_r. nia.
Qed.

(** [Btoi] accepts at most eight bytes: a decoded argument is a 64-bit
    unsigned integer. *)
Lemma arg_uint_range c i n : arg_uint c i = Some n -> 0 <= n < 2 ^ 64.
Proof.
  intros H. split; [by eapply arg_uint_nonneg|].
  unfold arg_uint in H. destruct (arg c i) as [b|]; [|done].
  destruct (Nat.leb_spec (String.length b) 8) as [Hlen|]; [|done].
  injection H as <-.
  pose proof (be_value_bound b 0 ltac:(lia)) as Hb.
  assert (256 ^ Z.of_nat (String.length b) <= 256 ^ 8).
  { apply Z.pow_le_mono_r; lia. }
  change (2 ^ 64) with (256 ^ 8). lia.
Qed.

Section Eval.
Context (c : Call) (s : State).
Implicit Types (a b e : Expr) (m n : Z) (p q : string).

Lemma eval_Int n : 0 <= n < 2 ^ 64 -> Int n c s = Ok (VUint n).
Proof. intros Hn. unfold Int. by rewrite bool_decide_eq_true_2. Qed.

Lemma eval_uint64_result n : 0 <= n < 2 ^ 64 -> uint64_result n = Ok (VUint n).
Proof.
  intros Hn. unfold uint64_result.
  by rewrite !bool_decide_eq_false_2 by lia.
Qed.

Lemma uint64_result_Ok n v : uint64_result n = Ok v -> 0 <= n < 2 ^ 64 /\ v = VUint n.
Proof.
  unfold uint64_result. repeat case_bool_decide; try done.
  intros [= <-]. split; [lia | done].
Qed.

Lemma uint64_result_Err n : ~ (0 <= n < 2 ^ 64) -> exists err, uint64_result n = Err err.
Proof. unfold uint64_result. repeat case_bool_decide; eauto. lia. Qed.

Lemma eval_Bytes p : Bytes p c s = Ok (VBytes p).
Proof. done. Qed.

Lemma eval_sender : Txn_sender c s = Ok (VBytes (sender c)).
Proof. done. Qed.

Lemma eval_group_size : Global_group_size c s = Ok (VUint (group_size c)).
Proof. done. Qed.

Lemma eval_arg i p : arg c i = Some p -> Txn_application_args i c s = Ok (VBytes p).
Proof. unfold arg, Txn_application_args. by intros ->. Qed.

Lemma eval_arg_none i : arg c i = None -> Txn_application_args i c s = Err ArgOutOfRange.
Proof. unfold arg, Txn_application_args. by intros ->. Qed.

Lemma eval_Btoi_arg i n :
  arg_uint c i = Some n -> Btoi (Txn_application_args i) c s = Ok (VUint n).
Proof.
  unfold arg_uint, arg, Btoi, Txn_application_args.
  destruct (nth_error _ _); [|done]. simpl.
  destruct (_ <=? _)%nat; [|done]. by intros [= <-].
Qed.

Lemma eval_Btoi_arg_none i :
  arg_uint c i = None -> exists err, Btoi (Txn_application_args i) c s = Err err.
Proof.
  unfold arg_uint, arg, Btoi, Txn_application_args.
  destruct (nth_error _ _); simpl; [|eauto].
  destruct (_ <=? _)%nat; [done|eauto].
Qed.

Lemma eval_arith f a b m n :
  a c s = Ok (VUint m) -> b c s = Ok (VUint n) -> 0 <= f m n < 2 ^ 64 ->
  arith f a b c s = Ok (VUint (f m n)).
Proof. unfold arith. intros -> -> Hr. simpl. by apply eval_uint64_result. Qed.

Lemma eval_arith_Err f a b m n :
  a c s = Ok (VUint m) -> b c s = Ok (VUint n) -> ~ (0 <= f m n < 2 ^ 64) ->
  exists err, arith f a b c s = Err err.
Proof. unfold arith. intros -> -> Hr. simpl. by apply uint64_result_Err. Qed.

Lemma eval_Add a b m n :
  a c s = Ok (VUint m) -> b c s = Ok (VUint n) -> 0 <= m + n < 2 ^ 64 ->
  (a + b)%teal c s = Ok (VUint (m + n)).
Proof. apply eval_arith. Qed.

Lemma eval_Minus a b m n :
  a c s = Ok (VUint m) -> b c s = Ok (VUint n) -> 0 <= m - n < 2 ^ 64 ->
  (a - b)%teal c s = Ok (VUint (m - n)).
Proof. apply eval_arith. Qed.

Lemma eval_Mul a b m n :
  a c s = Ok (VUint m) -> b c s = Ok (VUint n) -> 0 <= m * n < 2 ^ 64 ->
  (a * b)%teal c s = Ok (VUint (m * n)).
Proof. apply eval_arith. Qed.

Lemma eval_Div a b m n :
  a c s = Ok (VUint m) -> b c s = Ok (VUint n) -> n <> 0 ->
  (a / b)%teal c s = Ok (VUint (m / n)).
Proof.
  unfold Div. intros -> -> Hn. simpl.
  destruct (Z.eqb_spec n 0); [done|done].
Qed.

Lemma eval_Gt a b m n :
  a c s = Ok (VUint m) -> b c s = Ok (VUint n) ->
  (a > b)%teal c s = Ok (of_bool (bool_decide (n < m))).
Proof.
  unfold Gt, relation. intros -> ->. simpl. do 2 f_equal.
  case_bool_decide; destruct (Z.compare_spec m n); done || lia.
Qed.

Lemma eval_Ge a b m n :
  a c s = Ok (VUint m) -> b c s = Ok (VUint n) ->
  (a >= b)%teal c s = Ok (of_bool (bool_decide (n <= m))).
Proof.
  unfold Ge, relation. intros -> ->. simpl. do 2 f_equal.
  case_bool_decide; destruct (Z.compare_spec m n); done || lia.
Qed.

Lemma eval_Le a b m n :
  a c s = Ok (VUint m) -> b c s = Ok (VUint n) ->
  (a <= b)%teal c s = Ok (of_bool (bool_decide (m <= n))).
Proof.
  unfold Le, relation. intros -> ->. simpl. do 2 f_equal.
  case_bool_decide; destruct (Z.compare_spec m n); done || lia.
Qed.

Lemma eval_Lt a b m n :
  a c s = Ok (VUint m) -> b c s = Ok (VUint n) ->
  (a < b)%teal c s = Ok (of_bool (bool_decide (m < n))).
Proof.
  unfold Lt, relation. intros -> ->. simpl. do 2 f_equal.
  case_bool_decide; destruct (Z.compare_spec m n); done || lia.
Qed.

Lemma eval_Eq a b m n :
  a c s = Ok (VUint m) -> b c s = Ok (VUint n) ->
  (a == b)%teal c s = Ok (of_bool (bool_decide (m = n))).
Proof.
  unfold Eq, relation. intros -> ->. simpl. do 2 f_equal.
  case_bool_decide; destruct (Z.compare_spec m n); done || lia.
Qed.

Lemma eval_Lt_bytes a b p q :
  a c s = Ok (VBytes p) -> b c s = Ok (VBytes q) ->
  (a < b)%teal c s = Ok (of_bool (String.ltb p q)).
Proof. unfold Lt, relation. by intros -> ->. Qed.

Lemma eval_Eq_bytes a b p q :
  a c s = Ok (VBytes p) -> b c s = Ok (VBytes q) ->
  (a == b)%teal c s = Ok (of_bool (bool_decide (p = q))).
Proof.
  unfold Eq, relation. intros -> ->. simpl. by rewrite test_eq_string.
Qed.

Lemma eval_Neq_bytes a b p q :
  a c s = Ok (VBytes p) -> b c s = Ok (VBytes q) ->
  (a != b)%teal c s = Ok (of_bool (bool_decide (p <> q))).
Proof.
  unfold Neq, relation. intros -> ->. simpl. do 2 f_equal.
  pose proof (test_eq_string p q) as H.
  destruct (String.compare p q); repeat case_bool_decide; done.
Qed.

Lemma eval_And a b (x y : bool) :
  a c s = Ok (of_bool x) -> b c s = Ok (of_bool y) ->
  And a b c s = Ok (of_bool (x && y)).
Proof. unfold And. intros -> ->. by destruct x, y. Qed.

Lemma eval_Or a b (x y : bool) :
  a c s = Ok (of_bool x) -> b c s = Ok (of_bool y) ->
  Or a b c s = Ok (of_bool (x || y)).
Proof. unfold Or. intros -> ->. by destruct x, y. Qed.

Lemma eval_If_bytes e a b (t : bool) p q :
  e c s = Ok (of_bool t) -> a c s = Ok (VBytes p) -> b c s = Ok (VBytes q) ->
  If e a b c s = Ok (VBytes (if t then p else q)).
Proof. unfold If. intros -> -> ->. by destruct t. Qed.

Lemma eval_If_uint e a b (t : bool) m n :
  e c s = Ok (of_bool t) -> a c s = Ok (VUint m) -> b c s = Ok (VUint n) ->
  If e a b c s = Ok (VUint (if t then m else n)).
Proof. unfold If. intros -> -> ->. by destruct t. Qed.

(** [If] evaluates the branch it takes, and only that one. *)
Lemma eval_If_true e a b r :
  e c s = Ok (of_bool true) -> a c s = r -> If e a b c s = r.
Proof. unfold If. by intros -> <-. Qed.

Lemma eval_If_false e a b r :
  e c s = Ok (of_bool false) -> b c s = r -> If e a b c s = r.
Proof. unfold If. by intros -> <-. Qed.

Lemma eval_Len e p :
  e c s = Ok (VBytes p) -> Len e c s = Ok (VUint (Z.of_nat (String.length p))).
Proof. unfold Len. by intros ->. Qed.

Lemma eval_Itob e n : e c s = Ok (VUint n) -> Itob e c s = Ok (VBytes (be_bytes 8 n)).
Proof. unfold Itob. by intros ->. Qed.

Lemma eval_localGet a b p q :
  a c s = Ok (VBytes p) -> b c s = Ok (VBytes q) ->
  App_localGet a b c s = Ok (local_value s p q).
Proof. unfold App_localGet. by intros -> ->. Qed.

Lemma eval_globalGet e p :
  e c s = Ok (VBytes p) -> App_globalGet e c s = Ok (global_value s p).
Proof. unfold App_globalGet. by intros ->. Qed.

Lemma eval_load v : load v c s = Ok (default (VUint 0) (scratch s !! slot v)).
Proof. done. Qed.

(** Statements *)

Lemma exec_Assert e (t : bool) :
  e c s = Ok (of_bool t) ->
  Assert e c s = if t then Ok (Next s) else Err AssertFailed.
Proof. unfold Assert. intros ->. by destruct t. Qed.

Lemma exec_Return e v : e c s = Ok v -> Return e c s = Ok (Returned v s).
Proof. unfold Return. by intros ->. Qed.

Lemma exec_localPut a b e p q v :
  a c s = Ok (VBytes p) -> b c s = Ok (VBytes q) -> e c s = Ok v ->
  App_localPut a b e c s = Ok (Next (set_local p q v s)).
Proof. unfold App_localPut. by intros -> -> ->. Qed.

Lemma exec_globalPut b e q v :
  b c s = Ok (VBytes q) -> e c s = Ok v ->
  App_globalPut b e c s = Ok (Next (set_global q v s)).
Proof. unfold App_globalPut. by intros -> ->. Qed.

Lemma exec_store v e x :
  e c s = Ok x -> store v e c s = Ok (Next (set_scratch (slot v) x s)).
Proof. unfold store. by intros ->. Qed.

Lemma exec_If_Then e body (t : bool) :
  e c s = Ok (of_bool t) ->
  If_Then e body c s = if t then body c s else Ok (Next s).
Proof. unfold If_Then. intros ->. by destruct t. Qed.

Lemma exec_Seq_nil : Seq [] c s = Ok (Next s).
Proof. done. Qed.

Lemma exec_Seq_cons st rest :
  Seq (st :: rest) c s =
  match st c s with
  | Ok (Next s') => Seq rest c s'
  | Ok (Returned v s') => Ok (Returned v s')
  | Err err => Err err
  end.
Proof. simpl. unfold mbind, result_bind. by destruct (st c s) as [[]|]. Qed.

End Eval.

Lemma eval_account1 c s q :
  arg c 1 = Some q ->
  If (Txn_sender < Txn_application_args 1) Txn_sender (Txn_application_args 1) c s
  = Ok (VBytes (account1_of (sender c) q)).
Proof.
  intros H. unfold account1_of.
  eapply eval_If_bytes; [eapply eval_Lt_bytes| |];
    first [apply eval_sender | by apply eval_arg].
Qed.

Lemma eval_account2 c s q :
  arg c 1 = Some q ->
  If (Txn_sender < Txn_application_args 1) (Txn_application_args 1) Txn_sender c s
  = Ok (VBytes (account2_of (sender c) q)).
Proof.
  intros H. unfold account2_of.
  eapply eval_If_bytes; [eapply eval_Lt_bytes| |];
    first [apply eval_sender | by apply eval_arg].
Qed.

(** [direction] of [send_payment] and [settle_with_asa] has a value, 1, when
    the sender is the low account of the pair; for the high account it is
    [Int(-1)], which has none. *)
Lemma eval_direction c s q :
  arg c 1 = Some q -> sender c = account1_of (sender c) q ->
  If (Txn_sender ==
        If (Txn_sender < Txn_application_args 1) Txn_sender (Txn_application_args 1))
     (Int 1) (Int (-1)) c s
  = Ok (VUint 1).
Proof.
  intros H Hlow. eapply eval_If_true; [|by apply eval_Int].
  erewrite eval_Eq_bytes; [|apply eval_sender | by apply eval_account1].
  by rewrite bool_decide_eq_true_2.
Qed.

Lemma eval_direction_high c s q :
  arg c 1 = Some q -> sender c <> account1_of (sender c) q ->
  If (Txn_sender ==
        If (Txn_sender < Txn_application_args 1) Txn_sender (Txn_application_args 1))
     (Int 1) (Int (-1)) c s
  = Err IntOutOfRange.
Proof.
  intros H Hhigh. eapply eval_If_false; [|done].
  erewrite eval_Eq_bytes; [|apply eval_sender | by apply eval_account1].
  by rewrite bool_decide_eq_false_2.
Qed.

Lemma eval_localGet_as c s (a b : Expr) p q v :
  a c s = Ok (VBytes p) -> b c s = Ok (VBytes q) ->
  local_value s p q = v ->
  App_localGet a b c s = Ok v.
Proof. intros Ha Hb <-. by apply eval_localGet. Qed.

Lemma eval_globalGet_as c s (e : Expr) p v :
  e c s = Ok (VBytes p) -> global_value s p = v -> App_globalGet e c s = Ok v.
Proof. intros He <-. by apply eval_globalGet. Qed.

(** Syntax-directed evaluation of an expression: a goal [e c s = Ok _]. *)
Ltac eval_expr :=
  lazymatch goal with
  | |- Int _ _ _ = _ => apply eval_Int; lia
  | |- Bytes _ _ _ = _ => apply eval_Bytes
  | |- Txn_sender _ _ = _ => apply eval_sender
  | |- Global_group_size _ _ = _ => apply eval_group_size
  | |- Btoi (Txn_application_args _) _ _ = _ => eapply eval_Btoi_arg; eassumption
  | |- Txn_application_args _ _ _ = _ => eapply eval_arg; eassumption
  | |- If (Txn_sender == _) (Int 1) (Int (-1)) _ _ = _ =>
      eapply eval_direction; eassumption
  | |- If (Txn_sender < ?q) Txn_sender ?q _ _ = _ => eapply eval_account1; eassumption
  | |- If (Txn_sender < ?q) ?q Txn_sender _ _ = _ => eapply eval_account2; eassumption
  | |- Add _ _ _ _ = _ => eapply eval_Add; [eval_expr | eval_expr | lia]
  | |- Minus _ _ _ _ = _ => eapply eval_Minus; [eval_expr | eval_expr | lia]
  | |- Mul _ _ _ _ = _ => eapply eval_Mul; [eval_expr | eval_expr | lia]
  | |- Div _ _ _ _ = _ => eapply eval_Div; [eval_expr | eval_expr | done]
  | |- Gt _ _ _ _ = _ => eapply eval_Gt; eval_expr
  | |- Ge _ _ _ _ = _ => eapply eval_Ge; eval_expr
  | |- Le _ _ _ _ = _ => eapply eval_Le; eval_expr
  | |- Lt _ _ _ _ = _ =>
      first [eapply eval_Lt; eval_expr | eapply eval_Lt_bytes; eval_expr]
  | |- Eq _ _ _ _ = _ =>
      first [eapply eval_Eq; eval_expr | eapply eval_Eq_bytes; eval_expr]
  | |- Neq _ _ _ _ = _ => eapply eval_Neq_bytes; eval_expr
  | |- And _ _ _ _ = _ => eapply eval_And; eval_expr
  | |- Or _ _ _ _ = _ => eapply eval_Or; eval_expr
  | |- Len _ _ _ = _ => eapply eval_Len; eval_expr
  | |- Itob _ _ _ = _ => eapply eval_Itob; eval_expr
  | |- App_localGet _ _ _ _ = _ =>
      first [ eapply eval_localGet_as; [eval_expr | eval_expr | eassumption]
            | eapply eval_localGet; eval_expr ]
  | |- App_globalGet _ _ _ = _ =>
      first [ eapply eval_globalGet_as; [eval_expr | eassumption]
            | eapply eval_globalGet; eval_expr ]
  | |- load _ _ _ = _ => apply eval_load
  end.

(** One statement of a [Seq]: evaluate it and move to the rest. *)
Ltac seq_step :=
  rewrite exec_Seq_cons;
  first
    [ erewrite exec_Assert by eval_expr
    | erewrite exec_localPut by eval_expr
    | erewrite exec_globalPut by eval_expr
    | erewrite exec_store by eval_expr
    | erewrite exec_Return by eval_expr ].


(** ** Inversion lemmas: what a successful evaluation tells *)

Section Inversion.
Context (c : Call) (s : State).
Implicit Types (a b e : Expr) (v : TealValue) (f : Flow).

Lemma arg_Ok i v :
  Txn_application_args i c s = Ok v -> exists p, arg c i = Some p /\ v = VBytes p.
Proof.
  unfold Txn_application_args, arg. destruct (nth_error _ _); [|done].
  intros [= <-]. eauto.
Qed.

Lemma Btoi_arg_Ok i v :
  Btoi (Txn_application_args i) c s = Ok v ->
  exists n, arg_uint c i = Some n /\ v = VUint n.
Proof.
  unfold Btoi, Txn_application_args, arg_uint, arg.
  destruct (nth_error _ _); [|done]. simpl.
  destruct (_ <=? _)%nat; [|done]. intros [= <-]. eauto.
Qed.

Lemma Int_Ok n v : Int n c s = Ok v -> 0 <= n < 2 ^ 64 /\ v = VUint n.
Proof. unfold Int. case_bool_decide; [|done]. by intros [= <-]. Qed.

Lemma arith_Ok g a b v :
  arith g a b c s = Ok v ->
  exists m n, a c s = Ok (VUint m) /\ b c s = Ok (VUint n) /\
    0 <= g m n < 2 ^ 64 /\ v = VUint (g m n).
Proof.
  unfold arith. destruct (a c s) as [[m|]|]; simpl; try done;
    destruct (b c s) as [[n|]|]; simpl; try done.
  intros H. apply uint64_result_Ok in H as [Hr ->]. eauto 6.
Qed.

Lemma Div_Ok a b v :
  Div a b c s = Ok v ->
  exists m n, a c s = Ok (VUint m) /\ b c s = Ok (VUint n) /\ v = VUint (m / n).
Proof.
  unfold Div. destruct (a c s) as [[m|]|]; simpl; try done;
    destruct (b c s) as [[n|]|]; simpl; try done.
  destruct (n =? 0); [done|]. intros [= <-]. eauto.
Qed.

Lemma relation_Ok t a b v :
  relation t a b c s = Ok v ->
  exists x y r, a c s = Ok x /\ b c s = Ok y /\ compare_values x y = Ok r.
Proof.
  unfold relation. destruct (a c s) as [x|]; simpl; [|done].
  destruct (b c s) as [y|]; simpl; [|done].
  destruct (compare_values x y) as [r|] eqn:E; simpl; [|done]. eauto 6.
Qed.

Lemma And_Ok a b v :
  And a b c s = Ok v -> exists m n, a c s = Ok (VUint m) /\ b c s = Ok (VUint n).
Proof.
  unfold And. destruct (a c s) as [[m|]|]; simpl; try done;
    destruct (b c s) as [[n|]|]; simpl; try done. eauto.
Qed.

Lemma Or_Ok a b v :
  Or a b c s = Ok v -> exists m n, a c s = Ok (VUint m) /\ b c s = Ok (VUint n).
Proof.
  unfold Or. destruct (a c s) as [[m|]|]; simpl; try done;
    destruct (b c s) as [[n|]|]; simpl; try done. eauto.
Qed.

Lemma If_Ok e a b v : If e a b c s = Ok v -> exists n, e c s = Ok (VUint n).
Proof. unfold If. destruct (e c s) as [[n|]|]; simpl; try done. eauto. Qed.

Lemma If_Ok_branch e a b v :
  If e a b c s = Ok v ->
  exists n, e c s = Ok (VUint n) /\
    (n = 0 /\ b c s = Ok v \/ n <> 0 /\ a c s = Ok v).
Proof.
  unfold If. destruct (e c s) as [[n|]|]; simpl; try done.
  destruct (Z.eqb_spec n 0); eauto.
Qed.

Lemma Len_Ok e v : Len e c s = Ok v -> exists p, e c s = Ok (VBytes p).
Proof. unfold Len. destruct (e c s) as [[|p]|]; simpl; try done. eauto. Qed.

Lemma Itob_Ok e v : Itob e c s = Ok v -> exists n, e c s = Ok (VUint n).
Proof. unfold Itob. destruct (e c s) as [[n|]|]; simpl; try done. eauto. Qed.

Lemma localGet_Ok a b v :
  App_localGet a b c s = Ok v ->
  exists p q, a c s = Ok (VBytes p) /\ b c s = Ok (VBytes q) /\ local_value s p q = v.
Proof.
  unfold App_localGet. destruct (a c s) as [[|p]|]; simpl; try done.
  destruct (b c s) as [[|q]|]; simpl; try done. intros [= <-]. eauto.
Qed.

Lemma globalGet_Ok e v :
  App_globalGet e c s = Ok v ->
  exists p, e c s = Ok (VBytes p) /\ global_value s p = v.
Proof.
  unfold App_globalGet. destruct (e c s) as [[|p]|]; simpl; try done.
  intros [= <-]. eauto.
Qed.

Lemma Return_Ok e f : Return e c s = Ok f -> exists v, e c s = Ok v /\ f = Returned v s.
Proof. unfold Return. destruct (e c s) as [v|]; simpl; try done. intros [= <-]. eauto. Qed.

Lemma store_Ok x e f :
  store x e c s = Ok f -> exists v, e c s = Ok v /\ f = Next (set_scratch (slot x) v s).
Proof. unfold store. destruct (e c s) as [v|]; simpl; try done. intros [= <-]. eauto. Qed.

Lemma If_Then_Ok e body f :
  If_Then e body c s = Ok f ->
  exists n, e c s = Ok (VUint n) /\ (f = Next s \/ body c s = Ok f).
Proof.
  unfold If_Then. destruct (e c s) as [[n|]|]; simpl; try done.
  destruct (n =? 0); [intros [= <-]|]; eauto.
Qed.

Lemma Assert_Ok e f :
  Assert e c s = Ok f -> f = Next s /\ exists n, e c s = Ok (VUint n).
Proof.
  unfold Assert. destruct (e c s) as [[n|]|]; simpl; try done.
  destruct (n =? 0); [done|]. intros [= <-]. eauto.
Qed.

Lemma localPut_Ok a b e f :
  App_localPut a b e c s = Ok f ->
  exists p q v, a c s = Ok (VBytes p) /\ b c s = Ok (VBytes q) /\ e c s = Ok v /\
    f = Next (set_local p q v s).
Proof.
  unfold App_localPut. destruct (a c s) as [[|p]|]; simpl; try done.
  destruct (b c s) as [[|q]|]; simpl; try done.
  destruct (e c s) as [v|]; simpl; try done. intros [= <-]. eauto 8.
Qed.

Lemma globalPut_Ok b e f :
  App_globalPut b e c s = Ok f ->
  exists q v, b c s = Ok (VBytes q) /\ e c s = Ok v /\ f = Next (set_global q v s).
Proof.
  unfold App_globalPut. destruct (b c s) as [[|q]|]; simpl; try done.
  destruct (e c s) as [v|]; simpl; try done. intros [= <-]. eauto 8.
Qed.

Lemma Seq_cons_Ok st rest f :
  Seq (st :: rest) c s = Ok f ->
  (exists s1, st c s = Ok (Next s1) /\ Seq rest c s1 = Ok f) \/
  (exists v s1, st c s = Ok (Returned v s1) /\ f = Returned v s1).
Proof.
  rewrite exec_Seq_cons. destruct (st c s) as [[s1|v s1]|]; try done.
  - eauto.
  - intros [= <-]. eauto.
Qed.

End Inversion.

Lemma account1_Ok c s v :
  If (Txn_sender < Txn_application_args 1) Txn_sender (Txn_application_args 1) c s = Ok v ->
  exists q, arg c 1 = Some q /\ v = VBytes (account1_of (sender c) q).
Proof.
  intros H. destruct (arg c 1) as [q|] eqn:Hq.
  - rewrite (eval_account1 c s q Hq) in H. injection H as <-. eauto.
  - apply If_Ok in H as (n & H). apply relation_Ok in H as (x & y & r & _ & H & _).
    apply arg_Ok in H as (p & H & _). congruence.
Qed.

(** [direction] was evaluated: the sender is the low account of the pair. *)
Lemma direction_Ok c s v :
  If (Txn_sender ==
        If (Txn_sender < Txn_application_args 1) Txn_sender (Txn_application_args 1))
     (Int 1) (Int (-1)) c s = Ok v ->
  exists q, arg c 1 = Some q /\ sender c = account1_of (sender c) q /\ v = VUint 1.
Proof.
  intros H. pose proof H as H'. apply If_Ok in H' as (n & H').
  apply relation_Ok in H' as (x & y & r & _ & H' & _).
  apply account1_Ok in H' as (q & Hq & _). exists q. split; [done|].
  destruct (decide (sender c = account1_of (sender c) q)) as [Hlow|Hhigh].
  - rewrite (eval_direction c s q Hq Hlow) in H. by injection H as <-.
  - by rewrite (eval_direction_high c s q Hq Hhigh) in H.
Qed.

(** Two reads of the same stored integer read the same integer. *)
Ltac merge_reads :=
  repeat match goal with
  | H1 : ?t = VUint ?a, H2 : ?t = VUint ?b |- _ =>
      first [ is_var b; assert (b = a) by congruence; subst b
            | is_var a; assert (a = b) by congruence; subst a ];
      clear H2
  | H1 : ?t = Some ?a, H2 : ?t = Some ?b |- _ =>
      first [ is_var b; assert (b = a) by congruence; subst b
            | is_var a; assert (a = b) by congruence; subst a ];
      clear H2
  end.

(** Two values that were compared have the same type. *)
Ltac inv_compare H :=
  lazymatch type of H with
  | compare_values (VUint _) (VUint _) = _ => clear H
  | compare_values (VBytes _) (VBytes _) = _ => clear H
  | compare_values (VUint _) (VBytes _) = _ => discriminate H
  | compare_values (VBytes _) (VUint _) = _ => discriminate H
  | compare_values (VUint _) ?y = _ => destruct y eqn:?; [clear H | discriminate H]
  | compare_values (VBytes _) ?y = _ => destruct y eqn:?; [discriminate H | clear H]
  | compare_values ?x (VUint _) = _ => destruct x eqn:?; [clear H | discriminate H]
  | compare_values ?x (VBytes _) = _ => destruct x eqn:?; [discriminate H | clear H]
  | _ => idtac
  end.

(** Leaves of an evaluation: which arguments were decoded, which stored
    values were read and with which type. *)
Ltac inv_expr H :=
  lazymatch type of H with
  | Btoi (Txn_application_args _) _ _ = Ok _ =>
      let n := fresh "n" in let Hn := fresh "Hn" in
      apply Btoi_arg_Ok in H as (n & Hn & ?); simplify_eq
  | Txn_application_args _ _ _ = Ok _ =>
      let p := fresh "p" in let Hp := fresh "Hp" in
      apply arg_Ok in H as (p & Hp & ?); simplify_eq
  | If (Txn_sender < ?q) Txn_sender ?q _ _ = Ok _ =>
      let p := fresh "p" in let Hp := fresh "Hp" in
      apply account1_Ok in H as (p & Hp & ?); simplify_eq
  | If (Txn_sender == _) (Int 1) (Int (-1)) _ _ = Ok _ =>
      let p := fresh "p" in let Hp := fresh "Hp" in let Hlow := fresh "Hlow" in
      apply direction_Ok in H as (p & Hp & Hlow & ?); simplify_eq
  | If _ _ _ _ _ = Ok _ =>
      let n := fresh "n" in
      apply If_Ok in H as (n & H); inv_expr H
  | Add _ _ _ _ = Ok _ => inv_arith H
  | Minus _ _ _ _ = Ok _ => inv_arith H
  | Mul _ _ _ _ = Ok _ => inv_arith H
  | Div _ _ _ _ = Ok _ =>
      let m := fresh "m" in let n := fresh "n" in
      let H1 := fresh "H" in let H2 := fresh "H" in
      apply Div_Ok in H as (m & n & H1 & H2 & ?); simplify_eq;
      inv_expr H1; inv_expr H2
  | Gt _ _ _ _ = Ok _ => inv_relation H
  | Ge _ _ _ _ = Ok _ => inv_relation H
  | Lt _ _ _ _ = Ok _ => inv_relation H
  | Le _ _ _ _ = Ok _ => inv_relation H
  | Eq _ _ _ _ = Ok _ => inv_relation H
  | Neq _ _ _ _ = Ok _ => inv_relation H
  | And _ _ _ _ = Ok _ =>
      let m := fresh "m" in let n := fresh "n" in
      let H1 := fresh "H" in let H2 := fresh "H" in
      apply And_Ok in H as (m & n & H1 & H2); inv_expr H1; inv_expr H2
  | Or _ _ _ _ = Ok _ =>
      let m := fresh "m" in let n := fresh "n" in
      let H1 := fresh "H" in let H2 := fresh "H" in
      apply Or_Ok in H as (m & n & H1 & H2); inv_expr H1; inv_expr H2
  | Len _ _ _ = Ok _ =>
      let p := fresh "p" in apply Len_Ok in H as (p & H); inv_expr H
  | Itob _ _ _ = Ok _ =>
      let n := fresh "n" in apply Itob_Ok in H as (n & H); inv_expr H
  | App_localGet _ _ _ _ = Ok _ =>
      let p := fresh "p" in let q := fresh "q" in
      let H1 := fresh "H" in let H2 := fresh "H" in let H3 := fresh "Hlocal" in
      apply localGet_Ok in H as (p & q & H1 & H2 & H3);
      inv_expr H1; inv_expr H2
  | App_globalGet _ _ _ = Ok _ =>
      let p := fresh "p" in
      let H1 := fresh "H" in let H3 := fresh "Hglobal" in
      apply globalGet_Ok in H as (p & H1 & H3); inv_expr H1
  | Bytes _ _ _ = Ok _ => injection H as ?; simplify_eq
  | Int _ _ _ = Ok _ => apply Int_Ok in H as [_ ?]; simplify_eq
  | Txn_sender _ _ = Ok _ => injection H as ?; simplify_eq
  | Global_group_size _ _ = Ok _ => injection H as ?; simplify_eq
  | _ => idtac
  end
with inv_arith H :=
  let m := fresh "m" in let n := fresh "n" in
  let H1 := fresh "H" in let H2 := fresh "H" in let Hr := fresh "Hrange" in
  apply arith_Ok in H as (m & n & H1 & H2 & Hr & ?); simplify_eq;
  inv_expr H1; inv_expr H2
with inv_relation H :=
  let x := fresh "x" in let y := fresh "y" in let r := fresh "r" in
  let H1 := fresh "H" in let H2 := fresh "H" in let Hc := fresh "Hcmp" in
  apply relation_Ok in H as (x & y & r & H1 & H2 & Hc);
  inv_expr H1; inv_expr H2; inv_compare Hc.

(** The first statement of a [Seq] that succeeds is an [Assert]: split it off
    and collect what its condition decoded. *)
Ltac inv_assert H :=
  let s1 := fresh "s" in let H1 := fresh "Hassert" in let n := fresh "n" in
  apply Seq_cons_Ok in H as [(s1 & H1 & H)|(? & ? & H1 & _)];
  [ apply Assert_Ok in H1 as [? (n & H1)]; simplify_eq; inv_expr H1
  | apply Assert_Ok in H1 as [? _]; discriminate ].


(** The same for a first statement that is a put. *)
Ltac inv_put H :=
  let s1 := fresh "s" in let H1 := fresh "Hput" in
  let Ha := fresh "H" in let Hb := fresh "H" in let He := fresh "H" in
  apply Seq_cons_Ok in H as [(s1 & H1 & H)|(? & ? & H1 & _)];
  [ first
      [ apply localPut_Ok in H1 as (? & ? & ? & Ha & Hb & He & ?);
        simplify_eq; inv_expr Ha; inv_expr He
      | apply globalPut_Ok in H1 as (? & ? & Hb & He & ?);
        simplify_eq; inv_expr He ]
  | first
      [ apply localPut_Ok in H1 as (? & ? & ? & _ & _ & _ & ?); discriminate
      | apply globalPut_Ok in H1 as (? & ? & _ & _ & ?); discriminate ] ].

(** ** The subroutines in closed form *)

(** One statement of a [Seq]: evaluate it and move to the rest. *)
Ltac seq_test :=
  match goal with
  | |- context [if ?t then Ok (Next _) else Err AssertFailed] =>
      destruct t; [|done]
  end.

(** [send_payment] when its arithmetic has values: the sender is the low
    account of the pair, [balance + amount] fits and [0 - limit2] does. *)
Lemma send_payment_eq c s q amt l1 l2 b :
  arg c 1 = Some q -> arg_uint c 2 = Some amt ->
  local_value s (account1_of (sender c) q) "balance" = VUint b ->
  local_value s (account1_of (sender c) q) "limit1" = VUint l1 ->
  local_value s (account1_of (sender c) q) "limit2" = VUint l2 ->
  sender c = account1_of (sender c) q ->
  0 <= b + amt < 2 ^ 64 -> 0 <= 0 - l2 < 2 ^ 64 ->
  send_payment c s =
    if bool_decide (0 < amt) && bool_decide (sender c <> q) &&
       (bool_decide (0 <= b + amt) && bool_decide (b + amt <= l1)
        || bool_decide (b + amt < 0) && bool_decide (0 - l2 <= b + amt))
    then Ok (Returned (VUint 1)
               (set_local (account1_of (sender c) q) "balance" (VUint (b + amt)) s))
    else Err AssertFailed.
Proof.
  intros Hq Hamt Hb Hl1 Hl2 Hlow Hnb Hneg.
  pose proof (arg_uint_range c 2 amt Hamt) as Hr.
  unfold send_payment. cbv zeta.
  unfold tl_balance, tl_limit1, tl_limit2.
  seq_step. destruct (bool_decide (0 < amt)); [|done].
  seq_step. destruct (bool_decide (sender c <> q)); [|done].
  seq_step. rewrite !Z.mul_1_r. seq_test.
  seq_step. seq_step. by rewrite Z.mul_1_r.
Qed.

Lemma send_payment_Ok_args c s f :
  send_payment c s = Ok f ->
  exists q amt b l1 l2,
    arg c 1 = Some q /\ arg_uint c 2 = Some amt /\
    local_value s (account1_of (sender c) q) "balance" = VUint b /\
    local_value s (account1_of (sender c) q) "limit1" = VUint l1 /\
    local_value s (account1_of (sender c) q) "limit2" = VUint l2 /\
    sender c = account1_of (sender c) q /\
    0 <= b + amt < 2 ^ 64 /\ 0 <= 0 - l2 < 2 ^ 64.
Proof.
  intros H. unfold send_payment in H. cbv zeta in H.
  unfold tl_balance, tl_limit1, tl_limit2 in H.
  do 3 inv_assert H. merge_reads.
  eexists _, _, _, _, _. repeat split; eauto; lia.
Qed.

(** [create_trust_line] when the creation counter can still be incremented. *)
Lemma create_trust_line_eq c s q asset n1 n2 r k :
  arg c 1 = Some q -> arg_uint c 2 = Some asset ->
  arg_uint c 3 = Some n1 -> arg_uint c 4 = Some n2 -> arg_uint c 5 = Some r ->
  global_value s "next_tl_id" = VUint k -> 0 <= k + 1 < 2 ^ 64 ->
  create_trust_line c s =
    if bool_decide (0 < n1) && bool_decide (0 < n2) && bool_decide (sender c <> q)
    then Ok (Returned (VUint 1) (created (sender c) q asset n1 n2 r k s))
    else Err AssertFailed.
Proof.
  intros Hq Hasset Hn1 Hn2 Hr Hk Hroom. unfold create_trust_line. cbv zeta.
  unfold tl_account1, tl_account2, tl_asset_id, tl_limit1, tl_limit2, tl_balance,
    tl_quality_in, tl_quality_out, tl_allow_rippling, next_tl_id.
  seq_step. destruct (bool_decide (0 < n1)); [|done].
  seq_step. destruct (bool_decide (0 < n2)); [|done].
  seq_step. destruct (bool_decide (sender c <> q)); [|done].
  do 11 seq_step. done.
Qed.

Lemma create_trust_line_Ok_args c s f :
  create_trust_line c s = Ok f ->
  exists q asset n1 n2 r k,
    arg c 1 = Some q /\ arg_uint c 2 = Some asset /\
    arg_uint c 3 = Some n1 /\ arg_uint c 4 = Some n2 /\ arg_uint c 5 = Some r /\
    global_value s "next_tl_id" = VUint k /\ 0 <= k + 1 < 2 ^ 64.
Proof.
  intros H. unfold create_trust_line in H. cbv zeta in H.
  unfold tl_account1, tl_account2, tl_asset_id, tl_limit1, tl_limit2, tl_balance,
    tl_quality_in, tl_quality_out, tl_allow_rippling, next_tl_id in H.
  do 3 inv_assert H. do 9 inv_put H. inv_put H.
  eexists _, _, _, _, _, _. repeat split; eauto; lia.
Qed.

(** [update_limits] when [0 - balance] has a value. *)
Lemma update_limits_eq c s q n1 n2 b :
  arg c 1 = Some q -> arg_uint c 2 = Some n1 -> arg_uint c 3 = Some n2 ->
  local_value s (account1_of (sender c) q) "balance" = VUint b ->
  0 <= 0 - b < 2 ^ 64 ->
  update_limits c s =
    if bool_decide (0 < n1) && bool_decide (0 < n2) &&
       (bool_decide (0 <= b) && bool_decide (b <= n1)
        || bool_decide (b < 0) && bool_decide (0 - b <= n2)) &&
       bool_decide (2 <= group_size c)
    then Ok (Returned (VUint 1)
               (set_local (account1_of (sender c) q) "limit2" (VUint n2)
                  (set_local (account1_of (sender c) q) "limit1" (VUint n1) s)))
    else Err AssertFailed.
Proof.
  intros Hq Hn1 Hn2 Hb Hneg. unfold update_limits. cbv zeta.
  unfold tl_balance, tl_limit1, tl_limit2.
  seq_step. destruct (bool_decide (0 < n1)); [|done].
  seq_step. destruct (bool_decide (0 < n2)); [|done].
  seq_step. seq_test.
  seq_step. destruct (bool_decide (2 <= group_size c)); [|done].
  do 3 seq_step. done.
Qed.

Lemma update_limits_Ok_args c s f :
  update_limits c s = Ok f ->
  exists q n1 n2 b,
    arg c 1 = Some q /\ arg_uint c 2 = Some n1 /\ arg_uint c 3 = Some n2 /\
    local_value s (account1_of (sender c) q) "balance" = VUint b /\
    0 <= 0 - b < 2 ^ 64.
Proof.
  intros H. unfold update_limits in H. cbv zeta in H.
  unfold tl_balance in H.
  do 3 inv_assert H. merge_reads.
  eexists _, _, _, _. repeat split; eauto; lia.
Qed.

Lemma freeze_trust_line_eq c s q adm :
  arg c 1 = Some q -> global_value s "admin" = VBytes adm ->
  freeze_trust_line c s =
    if bool_decide (sender c = adm)
    then Ok (Returned (VUint 1) (frozen (account1_of (sender c) q) s))
    else Err AssertFailed.
Proof.
  intros Hq Hadm. unfold freeze_trust_line. cbv zeta.
  unfold admin, tl_allow_rippling, tl_limit1, tl_limit2.
  seq_step. destruct (bool_decide (sender c = adm)); [|done].
  do 4 seq_step. done.
Qed.

Lemma freeze_trust_line_Ok_args c s f :
  freeze_trust_line c s = Ok f ->
  exists q adm, arg c 1 = Some q /\ global_value s "admin" = VBytes adm.
Proof.
  intros H. unfold freeze_trust_line in H. cbv zeta in H.
  unfold admin in H.
  inv_assert H. inv_put H. eauto.
Qed.

(** [settle_with_asa] when its arithmetic has values: the sender is the low
    account of the pair and [balance - amount] fits. *)
Lemma settle_with_asa_eq c s q amt b :
  arg c 1 = Some q -> arg_uint c 2 = Some amt ->
  local_value s (account1_of (sender c) q) "balance" = VUint b ->
  sender c = account1_of (sender c) q -> 0 <= b - amt < 2 ^ 64 ->
  settle_with_asa c s =
    if bool_decide (0 < amt) && bool_decide (2 <= group_size c)
    then Ok (Returned (VUint 1)
               (set_local (account1_of (sender c) q) "balance" (VUint (b - amt)) s))
    else Err AssertFailed.
Proof.
  intros Hq Hamt Hb Hlow Hnb.
  pose proof (arg_uint_range c 2 amt Hamt) as Hr.
  unfold settle_with_asa. cbv zeta. unfold tl_balance.
  seq_step. destruct (bool_decide (0 < amt)); [|done].
  seq_step. destruct (bool_decide (2 <= group_size c)); [|done].
  do 2 seq_step. by rewrite Z.mul_1_r.
Qed.

Lemma settle_with_asa_Ok_args c s f :
  settle_with_asa c s = Ok f ->
  exists q amt b,
    arg c 1 = Some q /\ arg_uint c 2 = Some amt /\
    local_value s (account1_of (sender c) q) "balance" = VUint b /\
    sender c = account1_of (sender c) q /\ 0 <= b - amt < 2 ^ 64.
Proof.
  intros H. unfold settle_with_asa in H. cbv zeta in H. unfold tl_balance in H.
  do 2 inv_assert H. inv_put H. merge_reads.
  eexists _, _, _. repeat split; eauto; lia.
Qed.

Lemma update_quality_eq c s q qi qo :
  arg c 1 = Some q -> arg_uint c 2 = Some qi -> arg_uint c 3 = Some qo ->
  update_quality c s =
    if bool_decide (0 < qi) && bool_decide (qi <= 1000000) &&
       bool_decide (0 < qo) && bool_decide (qo <= 1000000)
    then Ok (Returned (VUint 1)
               (set_local (account1_of (sender c) q) "q_out" (VUint qo)
                  (set_local (account1_of (sender c) q) "q_in" (VUint qi) s)))
    else Err AssertFailed.
Proof.
  intros Hq Hqi Hqo. unfold update_quality. cbv zeta.
  unfold tl_quality_in, tl_quality_out.
  seq_step. destruct (bool_decide (0 < qi)); [|done].
  seq_step. destruct (bool_decide (qi <= 1000000)); [|done].
  seq_step. destruct (bool_decide (0 < qo)); [|done].
  seq_step. destruct (bool_decide (qo <= 1000000)); [|done].
  do 3 seq_step. done.
Qed.

Lemma update_quality_Ok_args c s f :
  update_quality c s = Ok f ->
  exists q qi qo, arg c 1 = Some q /\ arg_uint c 2 = Some qi /\ arg_uint c 3 = Some qo.
Proof.
  intros H. unfold update_quality in H. cbv zeta in H.
  do 4 inv_assert H. inv_put H. merge_reads. eauto 12.
Qed.

Lemma update_rippling_eq c s q r :
  arg c 1 = Some q -> arg_uint c 2 = Some r ->
  update_rippling c s =
    if bool_decide (r = 0) || bool_decide (r = 1)
    then Ok (Returned (VUint 1)
               (set_local (account1_of (sender c) q) "ripple" (VUint r) s))
    else Err AssertFailed.
Proof.
  intros Hq Hr. unfold update_rippling. cbv zeta. unfold tl_allow_rippling.
  seq_step. seq_test. do 2 seq_step. done.
Qed.

Lemma update_rippling_Ok_args c s f :
  update_rippling c s = Ok f ->
  exists q r, arg c 1 = Some q /\ arg_uint c 2 = Some r.
Proof.
  intros H. unfold update_rippling in H. cbv zeta in H.
  inv_assert H. inv_put H. eauto 12.
Qed.

(** ** [send_rippling] *)

Lemma validate_hop c s n (k : nat) :
  (k <= 6)%nat -> arg_uint c 1 = Some n ->
  If_Then (Btoi (Txn_application_args 1) >= Int (Z.of_nat k))
    (Assert (Len (Txn_application_args (2 + k)) == Int 32)) c s =
  if bool_decide (Z.of_nat k <= n) then
    match arg c (2 + k) with
    | Some h =>
        if bool_decide (Z.of_nat (String.length h) = 32)
        then Ok (Next s) else Err AssertFailed
    | None => Err ArgOutOfRange
    end
  else Ok (Next s).
Proof.
  intros Hk Hn. erewrite exec_If_Then by eval_expr.
  destruct (bool_decide (Z.of_nat k <= n)); [|done].
  destruct (arg c (2 + k)) as [h|] eqn:Hh.
  - by erewrite exec_Assert by eval_expr.
  - unfold Assert, Eq, relation, Len. by rewrite (eval_arg_none _ _ _ Hh).
Qed.

Lemma validate_hop_pass c s n (k : nat) :
  (k <= 6)%nat -> arg_uint c 1 = Some n -> hop_ok c n k = true ->
  If_Then (Btoi (Txn_application_args 1) >= Int (Z.of_nat k))
    (Assert (Len (Txn_application_args (2 + k)) == Int 32)) c s = Ok (Next s).
Proof.
  intros Hk6 Hn Hk. rewrite (validate_hop c s n k Hk6 Hn). unfold hop_ok in Hk.
  destruct (bool_decide (Z.of_nat k <= n)); [|done].
  destruct (arg c (2 + k)); [|done]. by rewrite Hk.
Qed.

Lemma validate_hop_fail c s n (k : nat) :
  (k <= 6)%nat -> arg_uint c 1 = Some n -> hop_ok c n k = false ->
  exists e,
    If_Then (Btoi (Txn_application_args 1) >= Int (Z.of_nat k))
      (Assert (Len (Txn_application_args (2 + k)) == Int 32)) c s = Err e.
Proof.
  intros Hk6 Hn Hk. rewrite (validate_hop c s n k Hk6 Hn). unfold hop_ok in Hk.
  destruct (bool_decide (Z.of_nat k <= n)); [|done].
  destruct (arg c (2 + k)); [|eauto]. rewrite Hk. eauto.
Qed.

Lemma eval_load_stored c s v x : load v c (set_scratch (slot v) x s) = Ok x.
Proof. unfold load, set_scratch. simpl. by rewrite lookup_insert_eq. Qed.

(** The decay of [execute]: the product [current_amount * 999000] must fit
    64 bits. *)
Lemma execute_decay c s amt :
  0 <= amt -> amt * 999000 < 2 ^ 64 ->
  store current_amount (load current_amount * Int 999000 / Int 1000000)%teal c
    (set_scratch 0 (VUint amt) s)
  = Ok (Next (set_scratch 0 (VUint (amt * 999000 / 1000000))
                (set_scratch 0 (VUint amt) s))).
Proof.
  intros Hpos Hfit. erewrite exec_store; [done|].
  eapply eval_Div; [eapply eval_Mul; [apply (eval_load_stored c s current_amount) | |]
                   | | done]; first [apply eval_Int; lia | lia].
Qed.

Lemma execute_overflow c s amt :
  2 ^ 64 <= amt * 999000 ->
  exists e,
    store current_amount (load current_amount * Int 999000 / Int 1000000)%teal c
      (set_scratch 0 (VUint amt) s) = Err e.
Proof.
  intros Hbig.
  destruct (eval_arith_Err c (set_scratch 0 (VUint amt) s) Z.mul
              (load current_amount) (Int 999000) amt 999000) as [e He];
    [apply (eval_load_stored c s current_amount) | apply eval_Int; lia | lia |].
  exists e. unfold store, Div, Mul. by rewrite He.
Qed.

Ltac hop_step n k :=
  rewrite exec_Seq_cons;
  let E := fresh "Hhop" in
  let e := fresh "e" in
  let He := fresh "He" in
  match goal with
  | |- context [If_Then _ _ ?c ?s] =>
      destruct (hop_ok c n k) eqn:E;
      [ rewrite (validate_hop_pass _ _ n k) by (done || lia)
      | destruct (validate_hop_fail c s n k) as [e He];
        [ lia | done | done
        | let kz := eval cbv in (Z.of_nat k) in
          let i := eval cbv in (2 + k)%nat in
          change (Z.of_nat k) with kz in He; change (2 + k)%nat with i in He;
          rewrite He; simpl; eauto ] ]
  end.

(** [send_rippling] in closed form.  A successful call wrote scratch slot
    [current_amount] twice, first with the amount, then with the amount
    decayed once, and nothing else. *)
Lemma send_rippling_cases c s n amt :
  arg_uint c 1 = Some n -> arg_uint c 2 = Some amt ->
  if bool_decide (0 < n) && bool_decide (n <= 6) && bool_decide (0 < amt)
     && hops_ok c n && bool_decide (amt * 999000 < 2 ^ 64)
  then send_rippling c s =
         Ok (Returned (VUint 1)
               (set_scratch 0 (VUint (amt * 999000 / 1000000))
                  (set_scratch 0 (VUint amt) s)))
  else exists e, send_rippling c s = Err e.
Proof.
  intros Hn Hamt. unfold send_rippling, hops_ok. cbv zeta.
  rewrite exec_Seq_cons.
  seq_step. case_bool_decide; [|simpl; eauto].
  seq_step. case_bool_decide; [|simpl; eauto].
  seq_step. case_bool_decide; [|simpl; eauto].
  seq_step. rewrite exec_Seq_nil.
  rewrite exec_Seq_cons.
  simpl forallb.
  hop_step n 1%nat. hop_step n 2%nat. hop_step n 3%nat.
  hop_step n 4%nat. hop_step n 5%nat. hop_step n 6%nat.
  rewrite exec_Seq_nil. cbn [andb].
  rewrite exec_Seq_cons. erewrite exec_If_Then by eval_expr.
  rewrite (bool_decide_eq_true_2 (1 <= n)) by lia.
  change (slot current_amount) with 0%nat.
  case_bool_decide as Hfit.
  - rewrite execute_decay by lia. seq_step. done.
  - destruct (execute_overflow c s amt ltac:(lia)) as [e ->]. eauto.
Qed.

Lemma send_rippling_Ok_args c s f :
  send_rippling c s = Ok f ->
  exists n amt, arg_uint c 1 = Some n /\ arg_uint c 2 = Some amt.
Proof.
  intros H. unfold send_rippling in H. cbv zeta in H.
  apply Seq_cons_Ok in H as [(s1 & H & _)|(? & ? & H & _)].
  - do 3 inv_assert H. eauto.
  - do 3 inv_assert H.
    apply Seq_cons_Ok in H as [(? & _ & H)|(? & ? & H & _)]; [done|].
    apply store_Ok in H as (? & _ & ?). done.
Qed.

Lemma send_rippling_succeeds_inv c s s' :
  succeeds send_rippling c s s' ->
  exists n amt,
    arg_uint c 1 = Some n /\ arg_uint c 2 = Some amt /\
    0 < n <= 6 /\ 0 < amt /\ hops_ok c n = true /\ amt * 999000 < 2 ^ 64 /\
    s' = set_scratch 0 (VUint (amt * 999000 / 1000000)) (set_scratch 0 (VUint amt) s).
Proof.
  unfold succeeds. intros H.
  destruct (send_rippling_Ok_args _ _ _ H) as (n & amt & Hn & Hamt).
  pose proof (send_rippling_cases c s n amt Hn Hamt) as Hc.
  exists n, amt.
  repeat case_bool_decide; cbn [andb] in Hc;
    try (destruct Hc as [e He]; congruence);
    try (rewrite andb_false_r in Hc; destruct Hc as [e He]; congruence).
  destruct (hops_ok c n); [|destruct Hc as [e He]; congruence].
  rewrite Hc in H. injection H as <-. repeat split; auto.
Qed.

(** ** Reading local state after a put *)

Lemma local_value_set_local_same a k v s : local_value (set_local a k v s) a k = v.
Proof. unfold local_value, set_local. simpl. by rewrite lookup_insert_eq. Qed.

Lemma local_value_set_local_key a k v s a' k' :
  k <> k' -> local_value (set_local a k v s) a' k' = local_value s a' k'.
Proof.
  intros Hk. unfold local_value, set_local. simpl.
  rewrite lookup_insert_ne; [done | congruence].
Qed.

Lemma local_value_set_local_account a k v s a' k' :
  a <> a' -> local_value (set_local a k v s) a' k' = local_value s a' k'.
Proof.
  intros Ha. unfold local_value, set_local. simpl.
  rewrite lookup_insert_ne; [done | congruence].
Qed.

Ltac local_simpl :=
  repeat first
    [ rewrite local_value_set_local_same
    | rewrite local_value_set_local_key by done
    | rewrite local_value_set_local_account by done ].

Lemma local_value_set_global k v s a' k' :
  local_value (set_global k v s) a' k' = local_value s a' k'.
Proof. done. Qed.


(** ** The program entry point *)


Lemma exec_Cond_cons c s cnd body rest (t : bool) :
  cnd c s = Ok (of_bool t) ->
  Cond ((cnd, body) :: rest) c s = if t then body c s else Cond rest c s.
Proof. simpl. intros ->. by destruct t. Qed.

Lemma eval_application_id_is c s :
  (Txn_application_id == Int 0)%teal c s = Ok (of_bool (bool_decide (application_id c = 0))).
Proof. by apply eval_Eq. Qed.

Lemma eval_on_completion_is c s (e : Expr) n :
  e c s = Ok (VUint n) ->
  (Txn_on_completion == e)%teal c s
  = Ok (of_bool (bool_decide (OnComplete_code (on_completion c) = n))).
Proof. intros He. by apply eval_Eq. Qed.

Lemma eval_arg0_is c s name p :
  arg c 0 = Some p ->
  (Txn_application_args 0 == Bytes name)%teal c s = Ok (of_bool (bool_decide (p = name))).
Proof. intros Hp. apply eval_Eq_bytes; [by apply eval_arg | done]. Qed.

(** A plain call (not the creation of the application, no opt-in or
    close-out) whose first argument names an operation runs the subroutine of
    that operation. *)
Lemma approval_program_dispatch o c s :
  application_id c <> 0 -> on_completion c = NoOp -> arg c 0 = Some (op_name o) ->
  approval_program c s = subroutine o c s.
Proof.
  intros Hid Hoc Hname. unfold approval_program.
  rewrite (exec_Cond_cons _ _ _ _ _ _ (eval_application_id_is c s)).
  rewrite bool_decide_eq_false_2 by done.
  rewrite (exec_Cond_cons _ _ _ _ _ _ (eval_on_completion_is c s _ 1 eq_refl)).
  rewrite Hoc. rewrite bool_decide_eq_false_2 by done.
  destruct o; simpl in Hname;
    repeat first
      [ rewrite (exec_Cond_cons _ _ _ _ _ _ (eval_arg0_is c s _ _ Hname))
      | rewrite (exec_Cond_cons _ _ _ _ _ _ (eval_on_completion_is c s _ 2 eq_refl)),
          Hoc
      | rewrite bool_decide_eq_false_2 by done
      | rewrite bool_decide_eq_true_2 by done ];
    done.
Qed.

(** ** Canonical pair *)

Lemma deployed_by_on_creation :
  on_creation (mkCall alice 0 NoOp [] 1) (mkState ∅ ∅ ∅) = Ok (Returned (VUint 1) deployed).
Proof. reflexivity. Qed.

(** C8. For all identities [p <> q] the pair the subroutines compute does not
    depend on the order of the two: [canonicalize p q = canonicalize q p], and
    its first component is strictly below its second in the byte order. *)
Theorem canonicalize_commutative (p q : string) :
  p <> q ->
  canonicalize p q = canonicalize q p /\
  String.ltb (fst (canonicalize p q)) (snd (canonicalize p q)) = true.
Proof.
  intros Hne. unfold canonicalize, account1_of, account2_of.
  destruct (String.ltb p q) eqn:Hpq.
  - rewrite (ltb_asym _ _ Hpq). by simpl.
  - rewrite (ltb_total p q Hne Hpq). simpl. split; [done|].
    by apply ltb_total.
Qed.

Lemma canonicalize_commutative_witness :
  alice <> bob /\
  canonicalize alice bob = canonicalize bob alice /\
  String.ltb (fst (canonicalize alice bob)) (snd (canonicalize alice bob)) = true.
Proof.
  split; [discriminate | apply (canonicalize_commutative alice bob); discriminate].
Defined.

(** The pair is what [account1] and [account2] evaluate to in a subroutine
    called by [p] with counterparty argument [q]. *)
Lemma canonicalize_is_account1_account2 c s q :
  arg c 1 = Some q ->
  If (Txn_sender < Txn_application_args 1) Txn_sender (Txn_application_args 1) c s
    = Ok (VBytes (fst (canonicalize (sender c) q))) /\
  If (Txn_sender < Txn_application_args 1) (Txn_application_args 1) Txn_sender c s
    = Ok (VBytes (snd (canonicalize (sender c) q))).
Proof. intros Hq. split; [by apply eval_account1 | by apply eval_account2]. Qed.

(** ** Operations that only read *)

Lemma Seq_Return_Ok c s e f : Seq [Return e] c s = Ok f -> exists v, f = Returned v s.
Proof.
  intros H. apply Seq_cons_Ok in H as [(s1 & H & _)|(v & s1 & H & ->)];
    apply Return_Ok in H as (v' & _ & ?); [done|]. simplify_eq. eauto.
Qed.

Lemma get_balance_reads_only c s s' : succeeds get_balance c s s' -> s' = s.
Proof. unfold succeeds, get_balance. cbv zeta. intros H. apply Return_Ok in H as (v & _ & ?). by simplify_eq. Qed.

Lemma get_available_credit_reads_only c s s' :
  succeeds get_available_credit c s s' -> s' = s.
Proof.
  unfold succeeds. intros H. unfold get_available_credit in H. cbv zeta in H.
  do 2 inv_assert H. apply Seq_Return_Ok in H as (v & H). by simplify_eq.
Qed.

Lemma asa_opt_in_reads_only c s s' : succeeds asa_opt_in c s s' -> s' = s.
Proof.
  unfold succeeds. intros H. unfold asa_opt_in in H. cbv zeta in H.
  inv_assert H. apply Seq_Return_Ok in H as (v & H). by simplify_eq.
Qed.

(** ** Sequences of approved calls *)

(** A property of the stored state that every approved call preserves holds
    after every sequence of approved calls. *)
Lemma run_calls_invariant (P : State -> Prop) :
  (forall o c s s', succeeds (subroutine o) c s s' -> P s ->
     P (mkState (globals s') (locals s') ∅)) ->
  forall calls s s', P s -> run_calls calls s = Some s' -> P s'.
Proof.
  intros Hstep. induction calls as [|[o c] rest IH]; intros s s' Hs Hrun.
  - simpl in Hrun. by injection Hrun as <-.
  - simpl in Hrun.
    destruct (subroutine o c s) as [[|v s1]|] eqn:Hsub; try done.
    destruct v as [n|]; try done.
    destruct (decide (n = 1)) as [->|Hn]; [|destruct n as [|[]|]; done].
    eapply IH; [|exact Hrun]. by eapply Hstep.
Qed.

(** ** Stored limits are never negative *)

Lemma line_typed_set_local_other a k v s a' :
  k <> "limit1" -> k <> "limit2" -> k <> "balance" ->
  line_typed s a' -> line_typed (set_local a k v s) a'.
Proof.
  intros K1 K2 K3 (l1 & l2 & b & E1 & E2 & Eb & Hrest).
  exists l1, l2, b. by rewrite !local_value_set_local_key by done.
Qed.

Lemma line_typed_set_balance a n s a' :
  line_typed s a' -> line_typed (set_local a "balance" (VUint n) s) a'.
Proof.
  intros (l1 & l2 & b & E1 & E2 & Eb & Hrest).
  destruct (decide (a = a')) as [<-|Hne].
  - exists l1, l2, n. by local_simpl.
  - exists l1, l2, b. by rewrite !local_value_set_local_account by done.
Qed.

Lemma line_typed_set_limits a n1 n2 s a' :
  0 <= n1 -> 0 <= n2 ->
  line_typed s a' ->
  line_typed (set_local a "limit2" (VUint n2) (set_local a "limit1" (VUint n1) s)) a'.
Proof.
  intros Hn1 Hn2 (l1 & l2 & b & E1 & E2 & Eb & Hrest).
  destruct (decide (a = a')) as [<-|Hne].
  - exists n1, n2, b. by local_simpl.
  - exists l1, l2, b. by rewrite !local_value_set_local_account by done.
Qed.

Lemma step_typed o c s s' a :
  succeeds (subroutine o) c s s' -> line_typed s a -> line_typed s' a.
Proof.
  unfold succeeds. destruct o; simpl; intros H Hinv.
  - destruct (create_trust_line_Ok_args _ _ _ H)
      as (q & asset & n1 & n2 & r & k & Hq & Hasset & Hn1 & Hn2 & Hr & Hk & Hroom).
    rewrite (create_trust_line_eq c s q asset n1 n2 r k) in H by done.
    repeat case_bool_decide; cbn [andb] in H; try done. injection H as <-.
    unfold created. cbv zeta.
    apply (line_typed_set_local_other _ "ripple"); [done..|].
    apply (line_typed_set_local_other _ "q_out"); [done..|].
    apply (line_typed_set_local_other _ "q_in"); [done..|].
    apply line_typed_set_balance.
    apply line_typed_set_limits; [lia..|].
    apply (line_typed_set_local_other _ "asset_id"); [done..|].
    apply (line_typed_set_local_other _ "account2"); [done..|].
    by apply (line_typed_set_local_other _ "account1").
  - destruct (send_payment_Ok_args _ _ _ H)
      as (q & amt & b & l1 & l2 & Hq & Hamt & Hb & Hl1 & Hl2 & Hlow & Hnb & Hneg).
    rewrite (send_payment_eq c s q amt l1 l2 b) in H by done. cbv zeta in H.
    destruct (_ && _ && _); [|done]. injection H as <-.
    by apply line_typed_set_balance.
  - destruct (send_rippling_succeeds_inv _ _ _ H) as (n & amt & _ & _ & _ & _ & _ & _ & ->).
    done.
  - destruct (update_quality_Ok_args _ _ _ H) as (q & qi & qo & Hq & Hqi & Hqo).
    rewrite (update_quality_eq c s q qi qo) in H by done.
    destruct (_ && _ && _ && _); [|done]. injection H as <-.
    by do 2 (apply line_typed_set_local_other; [done..|]).
  - destruct (update_rippling_Ok_args _ _ _ H) as (q & r & Hq & Hr).
    rewrite (update_rippling_eq c s q r) in H by done.
    destruct (_ || _); [|done]. injection H as <-.
    by apply line_typed_set_local_other.
  - destruct (update_limits_Ok_args _ _ _ H) as (q & n1 & n2 & b & Hq & Hn1 & Hn2 & Hb & Hneg).
    rewrite (update_limits_eq c s q n1 n2 b) in H by done.
    repeat case_bool_decide; cbn [andb orb] in H; try done; injection H as <-;
      apply line_typed_set_limits; (lia || done).
  - destruct (freeze_trust_line_Ok_args _ _ _ H) as (q & adm & Hq & Hadm).
    rewrite (freeze_trust_line_eq c s q adm Hq Hadm) in H.
    case_bool_decide; [|done]. injection H as <-. unfold frozen.
    apply line_typed_set_limits; [done..|].
    by apply line_typed_set_local_other.
  - by rewrite (get_balance_reads_only c s s' H).
  - by rewrite (get_available_credit_reads_only c s s' H).
  - by rewrite (asa_opt_in_reads_only c s s' H).
  - destruct (settle_with_asa_Ok_args _ _ _ H) as (q & amt & b & Hq & Hamt & Hb & Hlow & Hnb).
    rewrite (settle_with_asa_eq c s q amt b Hq Hamt Hb Hlow Hnb) in H.
    destruct (_ && _); [|done]. injection H as <-.
    by apply line_typed_set_balance.
Qed.

(** ** Limits *)

(** C7. An approved [limits] call had both new limits positive and did not
    shrink the line below its exposure: with balance [b >= 0] the new
    [limit1] is at least [b], with [b < 0] the new [limit2] is at least [-b];
    it overwrote both limit fields, and nothing else, with the new values. *)
Theorem update_limits_succeeds_only_if c s s' :
  succeeds update_limits c s s' ->
  exists q n1 n2 b,
    arg c 1 = Some q /\ arg_uint c 2 = Some n1 /\ arg_uint c 3 = Some n2 /\
    local_value s (account1_of (sender c) q) "balance" = VUint b /\
    0 < n1 /\ 0 < n2 /\
    (0 <= b -> b <= n1) /\ (b < 0 -> - b <= n2) /\
    s' = set_local (account1_of (sender c) q) "limit2" (VUint n2)
           (set_local (account1_of (sender c) q) "limit1" (VUint n1) s).
Proof.
  unfold succeeds. intros H.
  destruct (update_limits_Ok_args _ _ _ H) as (q & n1 & n2 & b & Hq & Hn1 & Hn2 & Hb & Hneg).
  rewrite (update_limits_eq c s q n1 n2 b Hq Hn1 Hn2 Hb Hneg) in H.
  exists q, n1, n2, b.
  repeat case_bool_decide; cbn [andb orb] in H; try discriminate;
    injection H as <-; repeat split; auto; lia.
Qed.

Lemma update_limits_succeeds_only_if_witness :
  exists q n1 n2 b,
    arg (limits_call 50 60) 1 = Some q /\
    arg_uint (limits_call 50 60) 2 = Some n1 /\
    arg_uint (limits_call 50 60) 3 = Some n2 /\
    local_value line_100
      (account1_of (sender (limits_call 50 60)) q) "balance" = VUint b /\
    0 < n1 /\ 0 < n2 /\
    (0 <= b -> b <= n1) /\ (b < 0 -> - b <= n2) /\
    set_local alice "limit2" (VUint 60)
      (set_local alice "limit1" (VUint 50) line_100)
    = set_local (account1_of (sender (limits_call 50 60)) q) "limit2" (VUint n2)
        (set_local (account1_of (sender (limits_call 50 60)) q) "limit1" (VUint n1)
           line_100).
Proof.
  apply (update_limits_succeeds_only_if (limits_call 50 60)
           line_100).
  vm_compute. reflexivity.
Defined.

(** ** Rippling *)

(** C9. A [ripple] call that is approved changed no stored field: global and
    local state are what they were; the subroutine only validated its
    arguments and wrote a scratch slot. *)
Theorem send_rippling_changes_no_stored_field c s s' :
  succeeds send_rippling c s s' ->
  globals s' = globals s /\ locals s' = locals s.
Proof.
  intros H.
  destruct (send_rippling_succeeds_inv _ _ _ H) as (n & amt & _ & _ & _ & _ & _ & _ & ->).
  done.
Qed.

Lemma send_rippling_changes_no_stored_field_witness :
  globals (set_scratch 0 (VUint 999) (set_scratch 0 (VUint 1000) deployed))
    = globals deployed /\
  locals (set_scratch 0 (VUint 999) (set_scratch 0 (VUint 1000) deployed))
    = locals deployed.
Proof.
  apply (send_rippling_changes_no_stored_field (ripple_call [carol; dave; erin] 1000)).
  vm_compute. reflexivity.
Defined.

(** ** What every line the program can reach satisfies *)

Lemma line_inv_empty s a : locals s = ∅ -> line_inv s a.
Proof.
  intros He. exists 0, 0. unfold local_value. rewrite He, !lookup_empty.
  repeat split; auto.
Qed.

Lemma line_inv_same_locals s s' a : locals s' = locals s -> line_inv s a -> line_inv s' a.
Proof. unfold line_inv, local_value. by intros ->. Qed.

Lemma line_inv_bounded s a : line_inv s a -> line_bounded s a = true.
Proof.
  intros (l1 & l2 & H1 & H2 & Hb & Hlim).
  unfold line_bounded. rewrite H1, H2, Hb.
  by rewrite !bool_decide_eq_true_2 by lia.
Qed.

(** A put to a key other than the three keeps the invariant of every
    line. *)
Lemma line_inv_set_local_other a k v s a' :
  k <> "limit1" -> k <> "limit2" -> k <> "balance" ->
  line_inv s a' -> line_inv (set_local a k v s) a'.
Proof.
  intros K1 K2 K3 (l1 & l2 & H1 & H2 & Hb & Hlim).
  exists l1, l2. by rewrite !local_value_set_local_key by done.
Qed.

(** So does a put of two positive limits, or of two limits 0. *)
Lemma line_inv_set_limits a n1 n2 s a' :
  n1 = 0 /\ n2 = 0 \/ 0 < n1 /\ 0 < n2 ->
  line_inv s a' ->
  line_inv (set_local a "limit2" (VUint n2) (set_local a "limit1" (VUint n1) s)) a'.
Proof.
  intros Hn (l1 & l2 & H1 & H2 & Hb & Hlim).
  destruct (decide (a = a')) as [<-|Hne].
  - exists n1, n2. by local_simpl.
  - exists l1, l2. by rewrite !local_value_set_local_account by done.
Qed.

Lemma line_inv_set_balance_0 a s a' :
  line_inv s a' -> line_inv (set_local a "balance" (VUint 0) s) a'.
Proof.
  intros (l1 & l2 & H1 & H2 & Hb & Hlim).
  destruct (decide (a = a')) as [<-|Hne].
  - exists l1, l2. by local_simpl.
  - exists l1, l2. by rewrite !local_value_set_local_account by done.
Qed.

Lemma line_inv_set_balance_elsewhere a v s a' :
  a <> a' -> line_inv s a' -> line_inv (set_local a "balance" v s) a'.
Proof.
  intros Hne (l1 & l2 & H1 & H2 & Hb & Hlim).
  exists l1, l2. by rewrite !local_value_set_local_account by done.
Qed.

(** On such a line no payment is approved.  For the high account of the pair
    [direction] has no value; for the low account [0 - limit2] has one only
    when [limit2] is 0, and then [limit1] is 0 as well and leaves no room. *)
Lemma send_payment_refused c s q f :
  arg c 1 = Some q -> line_inv s (account1_of (sender c) q) ->
  send_payment c s <> Ok f.
Proof.
  intros Hq (l1 & l2 & H1 & H2 & Hb & Hlim) H.
  destruct (send_payment_Ok_args _ _ _ H)
    as (q0 & amt & b & l1' & l2' & Hq0 & Hamt & Hb' & Hl1 & Hl2 & Hlow & Hnb & Hneg).
  assert (q0 = q) as -> by congruence.
  assert (b = 0) as -> by congruence.
  assert (l1' = l1) as -> by congruence.
  assert (l2' = l2) as -> by congruence.
  rewrite (send_payment_eq c s q amt l1 l2 0) in H by done.
  repeat case_bool_decide; cbn [andb orb] in H; try done; lia.
Qed.

(** Nor is a settlement: the balance is 0 and [0 - amount] has no value. *)
Lemma settle_with_asa_refused c s q s' :
  arg c 1 = Some q -> line_inv s (account1_of (sender c) q) ->
  ~ succeeds settle_with_asa c s s'.
Proof.
  unfold succeeds. intros Hq (l1 & l2 & H1 & H2 & Hb & Hlim) H.
  destruct (settle_with_asa_Ok_args _ _ _ H)
    as (q0 & amt & b & Hq0 & Hamt & Hb' & Hlow & Hnb).
  assert (q0 = q) as -> by congruence.
  assert (b = 0) as -> by congruence.
  rewrite (settle_with_asa_eq c s q amt 0) in H by done.
  repeat case_bool_decide; cbn [andb] in H; try done; lia.
Qed.

Lemma step_inv o c s s' a :
  succeeds (subroutine o) c s s' -> line_inv s a -> line_inv s' a.
Proof.
  unfold succeeds. destruct o; simpl; intros H Hinv.
  - destruct (create_trust_line_Ok_args _ _ _ H)
      as (q & asset & n1 & n2 & r & k & Hq & Hasset & Hn1 & Hn2 & Hr & Hk & Hroom).
    rewrite (create_trust_line_eq c s q asset n1 n2 r k) in H by done.
    repeat case_bool_decide; cbn [andb] in H; try done. injection H as <-.
    unfold created. cbv zeta.
    apply (line_inv_set_local_other _ "ripple"); [done..|].
    apply (line_inv_set_local_other _ "q_out"); [done..|].
    apply (line_inv_set_local_other _ "q_in"); [done..|].
    apply line_inv_set_balance_0.
    apply line_inv_set_limits; [lia|].
    apply (line_inv_set_local_other _ "asset_id"); [done..|].
    apply (line_inv_set_local_other _ "account2"); [done..|].
    by apply (line_inv_set_local_other _ "account1").
  - destruct (send_payment_Ok_args _ _ _ H)
      as (q & amt & b & l1 & l2 & Hq & Hamt & Hb & Hl1 & Hl2 & Hlow & Hnb & Hneg).
    destruct (decide (account1_of (sender c) q = a)) as [<-|Hne].
    { by destruct (send_payment_refused c s q _ Hq Hinv H). }
    rewrite (send_payment_eq c s q amt l1 l2 b) in H by done.
    destruct (_ && _ && _); [|done]. injection H as <-.
    by apply line_inv_set_balance_elsewhere.
  - destruct (send_rippling_succeeds_inv _ _ _ H)
      as (n & amt & _ & _ & _ & _ & _ & _ & ->).
    by apply (line_inv_same_locals s).
  - destruct (update_quality_Ok_args _ _ _ H) as (q & qi & qo & Hq & Hqi & Hqo).
    rewrite (update_quality_eq c s q qi qo) in H by done.
    destruct (_ && _ && _ && _); [|done]. injection H as <-.
    by do 2 (apply line_inv_set_local_other; [done..|]).
  - destruct (update_rippling_Ok_args _ _ _ H) as (q & r & Hq & Hr).
    rewrite (update_rippling_eq c s q r) in H by done.
    destruct (_ || _); [|done]. injection H as <-.
    by apply line_inv_set_local_other.
  - destruct (update_limits_Ok_args _ _ _ H) as (q & n1 & n2 & b & Hq & Hn1 & Hn2 & Hb & Hneg).
    rewrite (update_limits_eq c s q n1 n2 b) in H by done.
    repeat case_bool_decide; cbn [andb orb] in H; try done; injection H as <-;
      apply line_inv_set_limits; (lia || done).
  - destruct (freeze_trust_line_Ok_args _ _ _ H) as (q & adm & Hq & Hadm).
    rewrite (freeze_trust_line_eq c s q adm Hq Hadm) in H.
    case_bool_decide; [|done]. injection H as <-. unfold frozen.
    apply line_inv_set_limits; [lia|].
    by apply line_inv_set_local_other.
  - by rewrite (get_balance_reads_only c s s' H).
  - by rewrite (get_available_credit_reads_only c s s' H).
  - by rewrite (asa_opt_in_reads_only c s s' H).
  - destruct (settle_with_asa_Ok_args _ _ _ H)
      as (q & amt & b & Hq & Hamt & Hb & Hlow & Hnb).
    destruct (decide (account1_of (sender c) q = a)) as [<-|Hne].
    { by destruct (settle_with_asa_refused c s q s' Hq Hinv H). }
    rewrite (settle_with_asa_eq c s q amt b Hq Hamt Hb Hlow Hnb) in H.
    destruct (_ && _); [|done]. injection H as <-.
    by apply line_inv_set_balance_elsewhere.
Qed.

(** Every line of a ledger that started without local state satisfies the
    invariant, whatever calls were approved since. *)
Lemma reachable_line_inv calls s s' a :
  locals s = ∅ -> run_calls calls s = Some s' -> line_inv s' a.
Proof.
  intros Hempty Hrun.
  apply (run_calls_invariant (fun s => line_inv s a)) with calls s;
    [|by apply line_inv_empty|done].
  intros o c s0 s1 Hstep Hinv.
  apply (line_inv_same_locals s1); [done|]. by eapply step_inv.
Qed.

(** ** The balance bound *)

(** C2. On a ledger that starts without local state, after any sequence of
    approved calls, and so after each call of such a sequence, every stored
    line satisfies [-limit2 <= balance <= limit1].  This holds whatever the
    operations are, the seven the specification lists ([create], [send],
    [ripple], [quality], [ripple_set], [limits], [freeze]) and the four
    others, and whichever pairs they address. *)
Theorem balance_stays_within_limits calls s0 s a :
  locals s0 = ∅ ->
  run_calls calls s0 = Some s ->
  line_bounded s a = true.
Proof.
  intros Hempty Hrun. apply line_inv_bounded.
  by apply (reachable_line_inv calls s0).
Qed.

Lemma balance_stays_within_limits_witness :
  line_bounded frozen_line alice = true.
Proof.
  apply (balance_stays_within_limits
           [(op_create, create_call 100 100); (op_freeze, freeze_call)]
           deployed frozen_line alice);
    vm_compute; reflexivity.
Defined.

(** ** Payments *)

(** C4, on the code.  [alice] and [bob] have a line with limits 100 and 100
    and balance 0.  A payment of 40 from [alice] to [bob] would leave the
    balance at 40, within the limits, and a payment of 40 from [bob] to
    [alice] at -40, within the limits as well.  [send_payment] rejects both:
    the first because [Int(0) - limit2_val] has no value, the second because
    [Int(-1)] has none. *)
Theorem send_payment_refuses_admissible_payment :
  run_calls [(op_create, create_call 100 100)] deployed = Some line_100 /\
  local_value line_100 alice "limit1" = VUint 100 /\
  local_value line_100 alice "limit2" = VUint 100 /\
  local_value line_100 alice "balance" = VUint 0 /\
  canonicalize alice bob = (alice, bob) /\
  send_payment (send_call alice bob 40) line_100 = Err Underflow /\
  send_payment (send_call bob alice 40) line_100 = Err IntOutOfRange.
Proof. repeat apply conj; vm_compute; reflexivity. Qed.

(** ** Settlement *)




(** ** Creation *)

(** C5 as stated does not hold: [alice] and [bob] have a line with limits
    100 and 100, and a second [create] for the same pair is approved; it
    replaces the limits with those of the second call and counts one more
    line. *)
Lemma create_existing_pair_is_approved :
  has_record line_100 alice bob = true /\
  local_value line_100 alice "limit1" = VUint 100 /\
  global_value line_100 "next_tl_id" = VUint 1 /\
  create_trust_line (create_call 50 60) line_100
    = Ok (Returned (VUint 1) (created alice bob 1 50 60 1 1 line_100)) /\
  local_value (created alice bob 1 50 60 1 1 line_100) alice "limit1" = VUint 50 /\
  global_value (created alice bob 1 50 60 1 1 line_100) "next_tl_id" = VUint 2.
Proof. repeat apply conj; vm_compute; reflexivity. Qed.

(** C5, amended. A [create] call with both limits positive and
    [sender <> counterparty] whose pair already has a record is approved, as
    long as the creation counter can still be incremented: it overwrites the
    record (new limits, balance 0, both qualities 1000000, the given flag)
    and increments the creation counter. *)
Theorem create_trust_line_overwrites c s q asset n1 n2 r k :
  arg c 1 = Some q -> arg_uint c 2 = Some asset ->
  arg_uint c 3 = Some n1 -> arg_uint c 4 = Some n2 -> arg_uint c 5 = Some r ->
  global_value s "next_tl_id" = VUint k -> 0 <= k < 2 ^ 64 - 1 ->
  has_record s (sender c) q = true ->
  0 < n1 -> 0 < n2 -> sender c <> q ->
  succeeds create_trust_line c s (created (sender c) q asset n1 n2 r k s) /\
  has_record (created (sender c) q asset n1 n2 r k s) (sender c) q = true /\
  local_value (created (sender c) q asset n1 n2 r k s)
    (account1_of (sender c) q) "balance" = VUint 0 /\
  local_value (created (sender c) q asset n1 n2 r k s)
    (account1_of (sender c) q) "limit1" = VUint n1 /\
  local_value (created (sender c) q asset n1 n2 r k s)
    (account1_of (sender c) q) "limit2" = VUint n2 /\
  local_value (created (sender c) q asset n1 n2 r k s)
    (account1_of (sender c) q) "q_in" = VUint 1000000 /\
  local_value (created (sender c) q asset n1 n2 r k s)
    (account1_of (sender c) q) "q_out" = VUint 1000000 /\
  local_value (created (sender c) q asset n1 n2 r k s)
    (account1_of (sender c) q) "ripple" = VUint r /\
  global_value (created (sender c) q asset n1 n2 r k s) "next_tl_id" = VUint (k + 1).
Proof.
  intros Hq Hasset Hn1 Hn2 Hr Hk Hroom _ H1 H2 Hne. unfold succeeds.
  rewrite (create_trust_line_eq c s q asset n1 n2 r k) by (done || lia).
  rewrite !bool_decide_eq_true_2 by done. split; [done|].
  unfold has_record, created, local_value, global_value, set_global, set_local.
  cbn [locals globals].
  repeat first [ rewrite lookup_insert_eq | rewrite lookup_insert_ne by congruence ].
  rewrite !bool_decide_eq_true_2 by done. done.
Qed.

Lemma create_trust_line_overwrites_witness :
  succeeds create_trust_line (create_call 50 60)
    line_100 (created alice bob 1 50 60 1 1 line_100).
Proof.
  refine (proj1 (create_trust_line_overwrites (create_call 50 60)
                   line_100 bob 1 50 60 1 1 _ _ _ _ _ _ _ _ _ _ _));
    first [lia | vm_compute; first [reflexivity | discriminate]].
Defined.

(** ** Freezing *)

(** C6 as stated does not hold for [limits]: on the line frozen right after
    its creation a [limits] call is approved and installs limits 50 and 60,
    which re-opens capacity. *)
Lemma freeze_does_not_block_limits :
  run_calls [(op_create, create_call 100 100); (op_freeze, freeze_call)] deployed
    = Some frozen_line /\
  local_value frozen_line alice "limit1" = VUint 0 /\
  local_value frozen_line alice "limit2" = VUint 0 /\
  update_limits (limits_call 50 60) frozen_line
    = Ok (Returned (VUint 1)
            (set_local alice "limit2" (VUint 60)
               (set_local alice "limit1" (VUint 50) frozen_line))) /\
  local_value
    (set_local alice "limit2" (VUint 60)
       (set_local alice "limit1" (VUint 50) frozen_line)) alice "limit1" = VUint 50.
Proof. repeat apply conj; vm_compute; reflexivity. Qed.

(** C6, amended. After an approved [freeze] of the line of [A] and [B] both
    limits are 0, rippling is off and the balance is what it was.  Every
    later [send] between [A] and [B] is rejected.  A later [limits] call on
    the pair is not blocked: on a balance of 0, with positive new limits, in
    a group of at least two transactions, it is approved and installs the
    new limits. *)
Theorem freeze_blocks_send_but_not_limits cf s s1 q :
  succeeds freeze_trust_line cf s s1 ->
  arg cf 1 = Some q ->
  let a1 := account1_of (sender cf) q in
  (local_value s1 a1 "limit1" = VUint 0 /\
   local_value s1 a1 "limit2" = VUint 0 /\
   local_value s1 a1 "ripple" = VUint 0 /\
   local_value s1 a1 "balance" = local_value s a1 "balance") /\
  (forall c q' b,
     arg c 1 = Some q' ->
     canonicalize (sender c) q' = canonicalize (sender cf) q ->
     local_value s1 a1 "balance" = VUint b -> 0 <= b ->
     forall s', ~ succeeds send_payment c s1 s') /\
  (forall c q' n1 n2,
     arg c 1 = Some q' -> arg_uint c 2 = Some n1 -> arg_uint c 3 = Some n2 ->
     canonicalize (sender c) q' = canonicalize (sender cf) q ->
     0 < n1 -> 0 < n2 -> 2 <= group_size c ->
     local_value s1 a1 "balance" = VUint 0 ->
     succeeds update_limits c s1
       (set_local a1 "limit2" (VUint n2) (set_local a1 "limit1" (VUint n1) s1))).
Proof.
  intros H Hq a1. unfold succeeds in *.
  destruct (freeze_trust_line_Ok_args _ _ _ H) as (q0 & adm & Hq0 & Hadm).
  assert (q0 = q) as -> by congruence.
  rewrite (freeze_trust_line_eq cf s q adm Hq Hadm) in H.
  case_bool_decide; [|done]. injection H as <-. fold a1.
  assert (Hlims : local_value (frozen a1 s) a1 "limit1" = VUint 0 /\
                  local_value (frozen a1 s) a1 "limit2" = VUint 0).
  { unfold frozen. by local_simpl. }
  destruct Hlims as [Hl1 Hl2].
  split; [|split].
  - unfold frozen. by local_simpl.
  - intros c q' b Hq' Hpair Hb Hb0 s' Hsend.
    assert (account1_of (sender c) q' = a1) as Ha1.
    { unfold canonicalize in Hpair. by injection Hpair. }
    rewrite <- Ha1 in Hb, Hl1, Hl2, Hsend.
    destruct (send_payment_Ok_args _ _ _ Hsend)
      as (q1 & amt & b' & l1 & l2 & Hq1 & Hamt & Hb' & Hl1' & Hl2' & Hlow & Hnb & Hneg).
    assert (q1 = q') as -> by congruence.
    assert (b' = b) as -> by congruence.
    assert (l1 = 0) as -> by congruence.
    assert (l2 = 0) as -> by congruence.
    rewrite (send_payment_eq c _ q' amt 0 0 b) in Hsend by done.
    repeat case_bool_decide; cbn [andb orb] in Hsend; try done; lia.
  - intros c q' n1 n2 Hq' Hn1 Hn2 Hpair Hp1 Hp2 Hsize Hb.
    assert (account1_of (sender c) q' = a1) as Ha1.
    { unfold canonicalize in Hpair. by injection Hpair. }
    rewrite <- Ha1 in Hb |- *.
    rewrite (update_limits_eq c _ q' n1 n2 0 Hq' Hn1 Hn2 Hb) by lia.
    repeat case_bool_decide; cbn [andb orb]; try done; lia.
Qed.

Lemma freeze_blocks_send_but_not_limits_witness :
  ~ succeeds send_payment (send_call alice bob 40) frozen_line
      (set_local alice "balance" (VUint 40) frozen_line) /\
  succeeds update_limits (limits_call 50 60) frozen_line
    (set_local alice "limit2" (VUint 60)
       (set_local alice "limit1" (VUint 50) frozen_line)).
Proof.
  pose proof (freeze_blocks_send_but_not_limits freeze_call line_100 frozen_line bob
                ltac:(vm_compute; reflexivity) ltac:(reflexivity))
    as (_ & Hsend & Hlimits).
  split.
  - refine (Hsend (send_call alice bob 40) bob 0 _ _ _ _ _);
      first [lia | vm_compute; reflexivity].
  - refine (Hlimits (limits_call 50 60) bob 50 60 _ _ _ _ _ _ _ _);
      first [lia | vm_compute; first [reflexivity | discriminate]].
Defined.

(** ** Rippling and credit *)

(** C1, on the code.  [alice] and [bob] have a line with limits 100 and 100,
    balance 0, rippling allowed.  A [ripple] of 1000 through the hop [bob]
    forwards 999, which the line does not admit, and is approved all the
    same.  A [ripple] of 50 forwards 49, which the line admits, and is
    approved without applying anything: the balance of the line is still 0.
    [send_rippling] reads no line and writes none. *)
Theorem send_rippling_checks_and_applies_nothing :
  run_calls [(op_create, create_call 100 100)] deployed = Some line_100 /\
  local_value line_100 alice "limit1" = VUint 100 /\
  local_value line_100 alice "ripple" = VUint 1 /\
  line_bounded (set_local alice "balance" (VUint 999) line_100) alice = false /\
  send_rippling (ripple_call [bob] 1000) line_100
    = Ok (Returned (VUint 1)
            (set_scratch 0 (VUint 999) (set_scratch 0 (VUint 1000) line_100))) /\
  line_bounded (set_local alice "balance" (VUint 49) line_100) alice = true /\
  send_rippling (ripple_call [bob] 50) line_100
    = Ok (Returned (VUint 1)
            (set_scratch 0 (VUint 49) (set_scratch 0 (VUint 50) line_100))) /\
  local_value (set_scratch 0 (VUint 49) (set_scratch 0 (VUint 50) line_100))
    alice "balance" = VUint 0.
Proof. repeat apply conj; vm_compute; reflexivity. Qed.

(** The amount a successful [ripple] ends with is the amount decayed once,
    whatever the number of hops. *)
Lemma send_rippling_decays_once c s s' :
  succeeds send_rippling c s s' ->
  exists amt, arg_uint c 2 = Some amt /\
    scratch s' !! slot current_amount = Some (VUint (spec_forwarded amt 1)).
Proof.
  intros H.
  destruct (send_rippling_succeeds_inv _ _ _ H)
    as (n & amt & _ & Hamt & _ & _ & _ & _ & ->).
  exists amt. split; [done|]. unfold set_scratch. simpl. by rewrite lookup_insert_eq.
Qed.

(** C3, on the code. The specification's decay gives 999, 998, 997 for
    three hops and amount 1000; [send_rippling] with three hops applies the
    decay once and ends with 999. *)
Lemma ripple_three_hops_decays_once :
  spec_forwarded 1000 1 = 999 /\
  spec_forwarded 1000 2 = 998 /\
  spec_forwarded 1000 3 = 997 /\
  send_rippling (ripple_call [carol; dave; erin] 1000) deployed
    = Ok (Returned (VUint 1)
            (set_scratch 0 (VUint 999) (set_scratch 0 (VUint 1000) deployed))).
Proof. repeat apply conj; vm_compute; reflexivity. Qed.

(** * More of the program *)

(** ** The entry point *)

Lemma exec_Cond_cons_err c s cnd body rest e :
  cnd c s = Err e -> Cond ((cnd, body) :: rest) c s = Err e.
Proof. simpl. by intros ->. Qed.

Lemma exec_Cond_nil c s : Cond [] c s = Err NoCondMatched.
Proof. done. Qed.

Lemma eval_arg0_missing c s name :
  arg c 0 = None -> (Txn_application_args 0 == Bytes name)%teal c s = Err ArgOutOfRange.
Proof.
  intros H. unfold Eq, relation. by rewrite (eval_arg_none c s 0 H).
Qed.

Lemma on_completion_code_is (oc oc' : OnComplete) :
  bool_decide (OnComplete_code oc = OnComplete_code oc') = bool_decide (oc = oc').
Proof. destruct oc, oc'; done. Qed.

Ltac cond_step Hname :=
  first
    [ rewrite (exec_Cond_cons _ _ _ _ _ _ (eval_arg0_is _ _ _ _ Hname))
    | rewrite (exec_Cond_cons _ _ _ _ _ _ (eval_on_completion_is _ _ _ 2 eq_refl)),
        (on_completion_code_is _ CloseOut) ].

(** [approval_program] on a call that is neither the creation of the
    application nor an opt-in, and that has a first argument. *)
Lemma approval_program_named c s p :
  application_id c <> 0 -> on_completion c <> OptIn -> arg c 0 = Some p ->
  approval_program c s =
    match named_operation p with
    | Some o =>
        if before_close_out o then subroutine o c s
        else if bool_decide (on_completion c = CloseOut)
             then Ok (Returned (VUint 1) s)
             else subroutine o c s
    | None =>
        if bool_decide (on_completion c = CloseOut)
        then Ok (Returned (VUint 1) s)
        else Err NoCondMatched
    end.
Proof.
  intros Hid Hoc Hname. unfold approval_program, named_operation.
  rewrite (exec_Cond_cons _ _ _ _ _ _ (eval_application_id_is c s)).
  rewrite bool_decide_eq_false_2 by done.
  rewrite (exec_Cond_cons _ _ _ _ _ _ (eval_on_completion_is c s _ 1 eq_refl)).
  rewrite (on_completion_code_is _ OptIn), bool_decide_eq_false_2 by done.
  cond_step Hname. case_bool_decide; [done|].
  cond_step Hname. case_bool_decide; [done|].
  cond_step Hname. destruct (bool_decide (on_completion c = CloseOut)).
  { by repeat case_bool_decide. }
  do 9 (cond_step Hname; case_bool_decide; [done|]).
  by rewrite exec_Cond_nil.
Qed.

Lemma approval_program_opt_in_eq c s :
  application_id c <> 0 -> on_completion c = OptIn ->
  approval_program c s = Ok (Returned (VUint 1) s).
Proof.
  intros Hid Hoc. unfold approval_program.
  rewrite (exec_Cond_cons _ _ _ _ _ _ (eval_application_id_is c s)).
  rewrite bool_decide_eq_false_2 by done.
  rewrite (exec_Cond_cons _ _ _ _ _ _ (eval_on_completion_is c s _ 1 eq_refl)).
  by rewrite Hoc.
Qed.

Lemma approval_program_no_argument c s :
  application_id c <> 0 -> on_completion c <> OptIn -> arg c 0 = None ->
  approval_program c s = Err ArgOutOfRange.
Proof.
  intros Hid Hoc Hname. unfold approval_program.
  rewrite (exec_Cond_cons _ _ _ _ _ _ (eval_application_id_is c s)).
  rewrite bool_decide_eq_false_2 by done.
  rewrite (exec_Cond_cons _ _ _ _ _ _ (eval_on_completion_is c s _ 1 eq_refl)).
  rewrite (on_completion_code_is _ OptIn), bool_decide_eq_false_2 by done.
  by rewrite (exec_Cond_cons_err _ _ _ _ _ _ (eval_arg0_missing c s _ Hname)).
Qed.

Lemma approval_program_creation_eq c s :
  application_id c = 0 ->
  approval_program c s =
    Ok (Returned (VUint 1)
          (set_global "next_tl_id" (VUint 0)
             (set_global "admin" (VBytes (sender c)) s))).
Proof.
  intros Hid. unfold approval_program.
  rewrite (exec_Cond_cons _ _ _ _ _ _ (eval_application_id_is c s)).
  by rewrite bool_decide_eq_true_2 by done.
Qed.

(** ** What every subroutine leaves alone *)

Lemma Seq_Return_one c s f :
  Seq [Return (Int 1)] c s = Ok f -> f = Returned (VUint 1) s.
Proof.
  intros H. apply Seq_cons_Ok in H as [(s1 & H & _)|(v & s1 & H & ->)];
    apply Return_Ok in H as (v' & Hv & ?); [done|].
  injection Hv as <-. by simplify_eq.
Qed.

Lemma get_balance_eq c s : get_balance c s = Ok (Returned (VUint 1) s).
Proof. done. Qed.

Lemma get_available_credit_Ok c s f :
  get_available_credit c s = Ok f -> f = Returned (VUint 1) s.
Proof.
  intros H. unfold get_available_credit in H. cbv zeta in H.
  do 2 inv_assert H. by apply (Seq_Return_one c).
Qed.

Lemma asa_opt_in_Ok c s f : asa_opt_in c s = Ok f -> f = Returned (VUint 1) s.
Proof.
  intros H. unfold asa_opt_in in H. cbv zeta in H.
  inv_assert H. by apply (Seq_Return_one c).
Qed.

Lemma touches_trans a s s1 s2 : touches a s s1 -> touches a s1 s2 -> touches a s s2.
Proof. intros H1 H2. induction H2; [done | by constructor..]. Qed.

Lemma touches_admin a s s' : touches a s s' -> global_value s' "admin" = global_value s "admin".
Proof.
  induction 1 as [|k v s' _ IH|v s' _ IH|i v s' _ IH]; try done.
  rewrite <- IH. unfold global_value, set_global. simpl.
  by rewrite lookup_insert_ne.
Qed.

Lemma touches_other_account a s s' a' k :
  touches a s s' -> a' <> a -> locals s' !! (a', k) = locals s !! (a', k).
Proof.
  induction 1 as [|k' v s' _ IH|v s' _ IH|i v s' _ IH]; intros Hne; try done;
    try by apply IH.
  rewrite <- IH by done. unfold set_local. simpl.
  rewrite lookup_insert_ne; [done | congruence].
Qed.

Lemma touches_other_global a s s' k :
  touches a s s' -> k <> "next_tl_id" -> globals s' !! k = globals s !! k.
Proof.
  induction 1 as [|k' v s' _ IH|v s' _ IH|i v s' _ IH]; intros Hne; try done;
    try by apply IH.
  rewrite <- IH by done. unfold set_global. simpl.
  by rewrite lookup_insert_ne.
Qed.

Ltac touch := repeat first [apply touches_nothing | constructor].

(** Every subroutine that does not fail returns 1, and wrote at most to the
    record of the low account it addresses, to the creation counter and to
    scratch space. *)
Lemma subroutine_touches o c s f a :
  subroutine o c s = Ok f -> addressed c a ->
  exists s', f = Returned (VUint 1) s' /\ touches a s s'.
Proof.
  unfold addressed. destruct o; simpl; intros H Ha.
  - destruct (create_trust_line_Ok_args _ _ _ H)
      as (q & asset & n1 & n2 & r & k & Hq & Hasset & Hn1 & Hn2 & Hr & Hk & Hroom).
    rewrite (create_trust_line_eq c s q asset n1 n2 r k) in H by done.
    destruct (_ && _ && _); [|done]. injection H as <-.
    rewrite (Ha q Hq). eexists; split; [done|]. unfold created. cbv zeta. touch.
  - destruct (send_payment_Ok_args _ _ _ H)
      as (q & amt & b & l1 & l2 & Hq & Hamt & Hb & Hl1 & Hl2 & Hlow & Hnb & Hneg).
    rewrite (send_payment_eq c s q amt l1 l2 b) in H by done. cbv zeta in H.
    destruct (_ && _ && _); [|done]. injection H as <-.
    rewrite (Ha q Hq). eexists; split; [done|]. touch.
  - destruct (send_rippling_Ok_args _ _ _ H) as (n & amt & Hn & Hamt).
    pose proof (send_rippling_cases c s n amt Hn Hamt) as Hc.
    destruct (_ && _ && _ && _ && _); [|destruct Hc as [e He]; congruence].
    rewrite Hc in H. injection H as <-. eexists; split; [done|]. touch.
  - destruct (update_quality_Ok_args _ _ _ H) as (q & qi & qo & Hq & Hqi & Hqo).
    rewrite (update_quality_eq c s q qi qo) in H by done.
    destruct (_ && _ && _ && _); [|done]. injection H as <-.
    rewrite (Ha q Hq). eexists; split; [done|]. touch.
  - destruct (update_rippling_Ok_args _ _ _ H) as (q & r & Hq & Hr).
    rewrite (update_rippling_eq c s q r) in H by done.
    destruct (_ || _); [|done]. injection H as <-.
    rewrite (Ha q Hq). eexists; split; [done|]. touch.
  - destruct (update_limits_Ok_args _ _ _ H) as (q & n1 & n2 & b & Hq & Hn1 & Hn2 & Hb & Hneg).
    rewrite (update_limits_eq c s q n1 n2 b) in H by done.
    destruct (_ && _ && _ && _); [|done]. injection H as <-.
    rewrite (Ha q Hq). eexists; split; [done|]. touch.
  - destruct (freeze_trust_line_Ok_args _ _ _ H) as (q & adm & Hq & Hadm).
    rewrite (freeze_trust_line_eq c s q adm Hq Hadm) in H.
    destruct (bool_decide _); [|done]. injection H as <-.
    rewrite (Ha q Hq). eexists; split; [done|]. unfold frozen. touch.
  - rewrite get_balance_eq in H. injection H as <-. eexists; split; [done|]. touch.
  - rewrite (get_available_credit_Ok _ _ _ H). eexists; split; [done|]. touch.
  - rewrite (asa_opt_in_Ok _ _ _ H). eexists; split; [done|]. touch.
  - destruct (settle_with_asa_Ok_args _ _ _ H) as (q & amt & b & Hq & Hamt & Hb & Hlow & Hnb).
    rewrite (settle_with_asa_eq c s q amt b Hq Hamt Hb Hlow Hnb) in H.
    destruct (_ && _); [|done]. injection H as <-.
    rewrite (Ha q Hq). eexists; split; [done|]. touch.
Qed.

Lemma addressed_exists c : exists a, addressed c a.
Proof.
  unfold addressed. destruct (arg c 1) as [q|].
  - exists (account1_of (sender c) q). by intros ? [= <-].
  - by exists EmptyString.
Qed.

(** The same for the whole program, on a call that is not the creation of
    the application. *)
Lemma approval_program_touches c s f a :
  application_id c <> 0 -> approval_program c s = Ok f -> addressed c a ->
  exists s', f = Returned (VUint 1) s' /\ touches a s s'.
Proof.
  intros Hid H Ha.
  destruct (decide (on_completion c = OptIn)) as [Hoc|Hoc].
  { rewrite (approval_program_opt_in_eq c s Hid Hoc) in H. injection H as <-.
    eexists; split; [done|]. touch. }
  destruct (arg c 0) as [p|] eqn:Hp.
  2: { by rewrite (approval_program_no_argument c s Hid Hoc Hp) in H. }
  rewrite (approval_program_named c s p Hid Hoc Hp) in H.
  destruct (named_operation p) as [o|].
  - destruct (before_close_out o); [by eapply subroutine_touches|].
    destruct (bool_decide _); [|by eapply subroutine_touches].
    injection H as <-. eexists; split; [done|]. touch.
  - destruct (bool_decide _); [|done].
    injection H as <-. eexists; split; [done|]. touch.
Qed.

(** X1. A plain call to the deployed application (no opt-in, no close-out)
    whose first argument is the name of an operation runs the subroutine of
    that operation, and nothing else. *)
Theorem plain_call_runs_named_subroutine o c s :
  application_id c <> 0 -> on_completion c = NoOp -> arg c 0 = Some (op_name o) ->
  approval_program c s = subroutine o c s.
Proof.
  intros Hid Hoc Hname.
  rewrite (approval_program_named c s (op_name o)) by (done || by rewrite Hoc).
  rewrite Hoc. by destruct o.
Qed.

Lemma plain_call_runs_named_subroutine_witness :
  approval_program (limits_call 50 60) line_100
  = update_limits (limits_call 50 60) line_100.
Proof.
  apply (plain_call_runs_named_subroutine op_limits (limits_call 50 60) line_100);
    [discriminate | reflexivity | reflexivity].
Defined.

(** X2. An opt-in call is approved and changes nothing, whatever its
    arguments are: its first argument is not even looked at, so an opt-in
    that names [send] sends nothing. *)
Theorem opt_in_is_approved_unchanged c s :
  application_id c <> 0 -> on_completion c = OptIn ->
  approval_program c s = Ok (Returned (VUint 1) s).
Proof.
  intros Hid Hoc. unfold approval_program.
  rewrite (exec_Cond_cons _ _ _ _ _ _ (eval_application_id_is c s)).
  rewrite bool_decide_eq_false_2 by done.
  rewrite (exec_Cond_cons _ _ _ _ _ _ (eval_on_completion_is c s _ 1 eq_refl)).
  by rewrite Hoc.
Qed.

Lemma opt_in_is_approved_unchanged_witness :
  approval_program opt_in_call line_100 = Ok (Returned (VUint 1) line_100).
Proof.
  apply (opt_in_is_approved_unchanged opt_in_call line_100);
    [discriminate | reflexivity].
Defined.

(** X3. A close-out call runs [create] or [send] when its first argument
    names one of them, because [approval_program] tests those two names
    before the close-out branch; with any other first argument, the name of a
    later operation or no name at all, it is approved and changes nothing. *)
Theorem close_out_runs_only_create_and_send c s p :
  application_id c <> 0 -> on_completion c = CloseOut -> arg c 0 = Some p ->
  (p = "create" -> approval_program c s = create_trust_line c s) /\
  (p = "send" -> approval_program c s = send_payment c s) /\
  (p <> "create" -> p <> "send" ->
   approval_program c s = Ok (Returned (VUint 1) s)).
Proof.
  intros Hid Hoc Hp.
  rewrite (approval_program_named c s p) by (done || by rewrite Hoc).
  rewrite Hoc. repeat split.
  - by intros ->.
  - by intros ->.
  - intros H1 H2. unfold named_operation.
    rewrite !(bool_decide_eq_false_2 (p = "create")) by done.
    rewrite !(bool_decide_eq_false_2 (p = "send")) by done.
    by repeat case_bool_decide.
Qed.

Lemma close_out_runs_only_create_and_send_witness :
  approval_program (close_out_call ["settle"; bob; uint_arg 150]) line_100
  = Ok (Returned (VUint 1) line_100).
Proof.
  refine (proj2 (proj2 (close_out_runs_only_create_and_send
            (close_out_call ["settle"; bob; uint_arg 150]) line_100 "settle" _ _ _))
            _ _);
    first [discriminate | reflexivity].
Defined.

(** X4. A call that is neither the creation, nor an opt-in, nor a close-out
    is rejected when it has no argument at all (the first argument is read
    and is missing), and rejected when its first argument names none of the
    eleven operations (no branch of the [Cond] matches). *)
Theorem unknown_operation_is_rejected c s :
  application_id c <> 0 -> on_completion c <> OptIn -> on_completion c <> CloseOut ->
  (arg c 0 = None -> approval_program c s = Err ArgOutOfRange) /\
  (forall p, arg c 0 = Some p -> named_operation p = None ->
     approval_program c s = Err NoCondMatched).
Proof.
  intros Hid Hoc Hco. split.
  - by apply approval_program_no_argument.
  - intros p Hp Hnone. rewrite (approval_program_named c s p) by done.
    rewrite Hnone. by rewrite bool_decide_eq_false_2 by done.
Qed.

Lemma unknown_operation_is_rejected_witness :
  approval_program (call_of alice ["unfreeze"; bob] 1) frozen_line = Err NoCondMatched.
Proof.
  refine (proj2 (unknown_operation_is_rejected (call_of alice ["unfreeze"; bob] 1)
                   frozen_line _ _ _) "unfreeze" _ _);
    first [discriminate | reflexivity].
Defined.

(** X5. The creation call stores its sender as administrator and 0 as
    creation counter, whatever its arguments; after that, no approved call
    writes any global key but the creation counter: the administrator is
    fixed for good. *)
Theorem administrator_is_fixed_at_creation :
  (forall c s, application_id c = 0 ->
     exists s', approval_program c s = Ok (Returned (VUint 1) s') /\
       global_value s' "admin" = VBytes (sender c) /\
       global_value s' "next_tl_id" = VUint 0 /\
       locals s' = locals s) /\
  (forall c s v s' k, application_id c <> 0 ->
     approval_program c s = Ok (Returned v s') ->
     k <> "next_tl_id" -> globals s' !! k = globals s !! k).
Proof.
  split.
  - intros c s Hid. rewrite (approval_program_creation_eq c s Hid).
    eexists; split; [done|]. unfold global_value, set_global. simpl.
    rewrite lookup_insert_eq, lookup_insert_ne, lookup_insert_eq; done.
  - intros c s v s' k Hid H Hk.
    destruct (addressed_exists c) as [a Ha].
    destruct (approval_program_touches c s _ a Hid H Ha) as (s1 & Hs1 & Ht).
    injection Hs1 as -> ->. by eapply touches_other_global.
Qed.

Lemma administrator_is_fixed_at_creation_witness :
  globals frozen_line !! "admin" = globals line_100 !! "admin".
Proof.
  refine (proj2 administrator_is_fixed_at_creation freeze_call line_100
            (VUint 1) frozen_line "admin" _ _ _);
    first [discriminate | vm_compute; reflexivity].
Defined.

(** X6. An approved call with counterparty argument [q] writes local state
    only under the low account of the pair of its sender and [q]: the local
    state of every other account is what it was. *)
Theorem only_the_addressed_account_is_written c s v s' q a k :
  application_id c <> 0 ->
  approval_program c s = Ok (Returned v s') ->
  arg c 1 = Some q -> a <> account1_of (sender c) q ->
  locals s' !! (a, k) = locals s !! (a, k).
Proof.
  intros Hid H Hq Ha.
  assert (addressed c (account1_of (sender c) q)) as Hadd.
  { intros q' Hq'. congruence. }
  destruct (approval_program_touches c s _ _ Hid H Hadd) as (s1 & Hs1 & Ht).
  injection Hs1 as -> ->. by eapply touches_other_account.
Qed.

Lemma only_the_addressed_account_is_written_witness :
  locals frozen_line !! (bob, "limit1") = locals line_100 !! (bob, "limit1").
Proof.
  refine (only_the_addressed_account_is_written freeze_call line_100
            (VUint 1) frozen_line bob bob "limit1" _ _ _ _);
    first [discriminate | vm_compute; reflexivity].
Defined.

(** ** Quality, rippling flag and limits *)

(** X7. A [quality] call is approved exactly when both new qualities are in
    (0, 1000000]; it then overwrites the two quality fields of the addressed
    line and nothing else.  Neither a record of the line nor its limits are
    consulted. *)
Theorem update_quality_iff c s s' :
  succeeds update_quality c s s' <->
  exists q qi qo,
    arg c 1 = Some q /\ arg_uint c 2 = Some qi /\ arg_uint c 3 = Some qo /\
    0 < qi <= 1000000 /\ 0 < qo <= 1000000 /\
    s' = set_local (account1_of (sender c) q) "q_out" (VUint qo)
           (set_local (account1_of (sender c) q) "q_in" (VUint qi) s).
Proof.
  unfold succeeds. split.
  - intros H.
    destruct (update_quality_Ok_args _ _ _ H) as (q & qi & qo & Hq & Hqi & Hqo).
    rewrite (update_quality_eq c s q qi qo Hq Hqi Hqo) in H.
    exists q, qi, qo.
    repeat case_bool_decide; cbn [andb] in H; try discriminate.
    injection H as <-. repeat split; auto.
  - intros (q & qi & qo & Hq & Hqi & Hqo & [H1 H2] & [H3 H4] & ->).
    rewrite (update_quality_eq c s q qi qo Hq Hqi Hqo).
    by rewrite !bool_decide_eq_true_2 by done.
Qed.

Lemma update_quality_iff_witness :
  succeeds update_quality
    (call_of bob ["quality"; alice; uint_arg 999000; uint_arg 1000000] 1) line_100
    (set_local alice "q_out" (VUint 1000000)
       (set_local alice "q_in" (VUint 999000) line_100)).
Proof.
  apply (proj2 (update_quality_iff
                  (call_of bob ["quality"; alice; uint_arg 999000; uint_arg 1000000] 1)
                  line_100 _)).
  exists alice, 999000, 1000000.
  repeat apply conj; vm_compute; first [reflexivity | discriminate].
Defined.

(** X8. A [ripple_set] call is approved exactly when the new flag is 0 or 1;
    it then overwrites the rippling flag of the addressed line and nothing
    else. *)
Theorem update_rippling_iff c s s' :
  succeeds update_rippling c s s' <->
  exists q r,
    arg c 1 = Some q /\ arg_uint c 2 = Some r /\ (r = 0 \/ r = 1) /\
    s' = set_local (account1_of (sender c) q) "ripple" (VUint r) s.
Proof.
  unfold succeeds. split.
  - intros H.
    destruct (update_rippling_Ok_args _ _ _ H) as (q & r & Hq & Hr).
    rewrite (update_rippling_eq c s q r Hq Hr) in H.
    exists q, r.
    repeat case_bool_decide; cbn [orb] in H; try discriminate;
      injection H as <-; repeat split; auto.
  - intros (q & r & Hq & Hr & Hflag & ->).
    rewrite (update_rippling_eq c s q r Hq Hr).
    destruct Hflag as [-> | ->]; done.
Qed.

Lemma update_rippling_iff_witness :
  succeeds update_rippling (call_of alice ["ripple_set"; bob; uint_arg 0] 1) line_100
    (set_local alice "ripple" (VUint 0) line_100).
Proof.
  apply (proj2 (update_rippling_iff
                  (call_of alice ["ripple_set"; bob; uint_arg 0] 1) line_100 _)).
  exists bob, 0.
  repeat apply conj; first [left; reflexivity | vm_compute; reflexivity].
Defined.

(** X9. [create] stores the rippling flag as it is given, without the test
    that [ripple_set] makes: with positive limits and distinct accounts (and
    a creation counter that can still be incremented) a [create] whose flag
    is neither 0 nor 1 is approved and stores that value, while a
    [ripple_set] with the same value is rejected. *)
Theorem rippling_flag_is_validated_only_on_update c s q asset n1 n2 r k c' :
  arg c 1 = Some q -> arg_uint c 2 = Some asset ->
  arg_uint c 3 = Some n1 -> arg_uint c 4 = Some n2 -> arg_uint c 5 = Some r ->
  global_value s "next_tl_id" = VUint k -> 0 <= k < 2 ^ 64 - 1 ->
  0 < n1 -> 0 < n2 -> sender c <> q ->
  r <> 0 -> r <> 1 ->
  arg c' 1 = Some q -> arg_uint c' 2 = Some r ->
  succeeds create_trust_line c s (created (sender c) q asset n1 n2 r k s) /\
  local_value (created (sender c) q asset n1 n2 r k s)
    (account1_of (sender c) q) "ripple" = VUint r /\
  forall s1, update_rippling c' s1 = Err AssertFailed.
Proof.
  intros Hq Hasset Hn1 Hn2 Hr Hk Hroom H1 H2 Hne Hr0 Hr1 Hq' Hr'. unfold succeeds.
  rewrite (create_trust_line_eq c s q asset n1 n2 r k) by (done || lia).
  rewrite !bool_decide_eq_true_2 by done. repeat split.
  - unfold created. cbv zeta. rewrite local_value_set_global.
    by rewrite local_value_set_local_same.
  - intros s1. rewrite (update_rippling_eq c' s1 q r Hq' Hr').
    by rewrite !bool_decide_eq_false_2 by done.
Qed.

Lemma rippling_flag_is_validated_only_on_update_witness :
  local_value
    (created alice bob 1 100 100 7 0 deployed) alice "ripple" = VUint 7.
Proof.
  refine (proj1 (proj2 (rippling_flag_is_validated_only_on_update
            (call_of alice ["create"; bob; uint_arg 1; uint_arg 100; uint_arg 100;
                            uint_arg 7] 1)
            deployed bob 1 100 100 7 0
            (call_of alice ["ripple_set"; bob; uint_arg 7] 1)
            _ _ _ _ _ _ _ _ _ _ _ _ _ _)));
    first [lia | discriminate | vm_compute; reflexivity].
Defined.

(** X10. On a record whose balance is a stored unsigned integer, a [limits]
    call is approved exactly when both new limits are positive, the balance
    is 0 and the call is in a group of at least two transactions; it then
    overwrites the two limits of the addressed line and nothing else.  On a
    positive balance [Int(0) - current_balance] has no value, whatever the
    new limits are.  A record of the line is not required. *)
Theorem update_limits_iff c s s' q b :
  arg c 1 = Some q ->
  local_value s (account1_of (sender c) q) "balance" = VUint b -> 0 <= b ->
  succeeds update_limits c s s' <->
  exists n1 n2,
    arg_uint c 2 = Some n1 /\ arg_uint c 3 = Some n2 /\
    0 < n1 /\ 0 < n2 /\ b = 0 /\ 2 <= group_size c /\
    s' = set_local (account1_of (sender c) q) "limit2" (VUint n2)
           (set_local (account1_of (sender c) q) "limit1" (VUint n1) s).
Proof.
  intros Hq Hb Hb0. unfold succeeds. split.
  - intros H.
    destruct (update_limits_Ok_args _ _ _ H)
      as (q0 & n1 & n2 & b' & Hq0 & Hn1 & Hn2 & Hb' & Hneg).
    assert (q0 = q) as -> by congruence.
    assert (b' = b) as -> by congruence.
    rewrite (update_limits_eq c s q n1 n2 b Hq Hn1 Hn2 Hb Hneg) in H.
    exists n1, n2.
    repeat case_bool_decide; cbn [andb orb] in H; try discriminate;
      injection H as <-; repeat split; auto; lia.
  - intros (n1 & n2 & Hn1 & Hn2 & H1 & H2 & -> & Hsize & ->).
    rewrite (update_limits_eq c s q n1 n2 0 Hq Hn1 Hn2 Hb) by lia.
    repeat case_bool_decide; cbn [andb orb]; try done; lia.
Qed.

Lemma update_limits_iff_witness :
  succeeds update_limits (limits_call 50 60) line_100
    (set_local alice "limit2" (VUint 60) (set_local alice "limit1" (VUint 50) line_100)).
Proof.
  refine (proj2 (update_limits_iff (limits_call 50 60) line_100 _ bob 0 _ _ _) _);
    [reflexivity | vm_compute; reflexivity | lia |].
  exists 50, 60.
  repeat apply conj; first [lia | vm_compute; first [reflexivity | discriminate]].
Defined.

(** ** Freezing and creation *)

Lemma frozen_idempotent a s : frozen a (frozen a s) = frozen a s.
Proof.
  unfold frozen, set_local. simpl. f_equal.
  apply map_eq. intros [a' k'].
  rewrite !lookup_insert. repeat case_decide; congruence.
Qed.

(** X11. A [freeze] call is approved exactly when its sender is the stored
    administrator; it then sets the rippling flag and both limits of the
    addressed line to 0 and nothing else.  Freezing again is approved and
    changes nothing more. *)
Theorem freeze_trust_line_iff c s s' :
  (succeeds freeze_trust_line c s s' <->
   exists q, arg c 1 = Some q /\ global_value s "admin" = VBytes (sender c) /\
     s' = frozen (account1_of (sender c) q) s) /\
  (succeeds freeze_trust_line c s s' -> succeeds freeze_trust_line c s' s').
Proof.
  unfold succeeds.
  assert (Hiff : freeze_trust_line c s = Ok (Returned (VUint 1) s') ->
    exists q, arg c 1 = Some q /\ global_value s "admin" = VBytes (sender c) /\
      s' = frozen (account1_of (sender c) q) s).
  { intros H.
    destruct (freeze_trust_line_Ok_args _ _ _ H) as (q & adm & Hq & Hadm).
    rewrite (freeze_trust_line_eq c s q adm Hq Hadm) in H.
    case_bool_decide; [|done]. injection H as <-. subst adm. eauto. }
  split; [split; [exact Hiff|]|].
  - intros (q & Hq & Hadm & ->).
    rewrite (freeze_trust_line_eq c s q (sender c) Hq Hadm).
    by rewrite bool_decide_eq_true_2.
  - intros H. destruct (Hiff H) as (q & Hq & Hadm & ->).
    rewrite (freeze_trust_line_eq c (frozen (account1_of (sender c) q) s) q
               (sender c) Hq Hadm).
    rewrite bool_decide_eq_true_2 by done. by rewrite frozen_idempotent.
Qed.

Lemma freeze_trust_line_iff_witness :
  succeeds freeze_trust_line freeze_call frozen_line frozen_line.
Proof.
  apply (proj2 (freeze_trust_line_iff freeze_call line_100 frozen_line)).
  vm_compute. reflexivity.
Defined.

(** X12. A [freeze] by anyone but the administrator is rejected. *)
Theorem freeze_by_non_admin_is_rejected c s adm :
  global_value s "admin" = VBytes adm -> sender c <> adm ->
  forall s', ~ succeeds freeze_trust_line c s s'.
Proof.
  unfold succeeds. intros Hadm Hne s' H.
  destruct (freeze_trust_line_Ok_args _ _ _ H) as (q & adm' & Hq & Hadm').
  rewrite (freeze_trust_line_eq c s q adm' Hq Hadm') in H.
  case_bool_decide; [|done]. congruence.
Qed.

Lemma freeze_by_non_admin_is_rejected_witness :
  ~ succeeds freeze_trust_line (call_of bob ["freeze"; alice] 1) line_100 frozen_line.
Proof.
  apply (freeze_by_non_admin_is_rejected (call_of bob ["freeze"; alice] 1)
           line_100 alice); [vm_compute; reflexivity | discriminate].
Defined.

(** X13. A [create] call is approved exactly when both limits are positive,
    the counterparty is not the sender (a line with oneself is refused) and
    the creation counter can still be incremented; it then writes the whole
    record of the line (balance 0, qualities 1000000) and adds one to the
    creation counter. *)
Theorem create_trust_line_iff c s s' :
  succeeds create_trust_line c s s' <->
  exists q asset n1 n2 r k,
    arg c 1 = Some q /\ arg_uint c 2 = Some asset /\
    arg_uint c 3 = Some n1 /\ arg_uint c 4 = Some n2 /\ arg_uint c 5 = Some r /\
    global_value s "next_tl_id" = VUint k /\ 0 <= k + 1 < 2 ^ 64 /\
    0 < n1 /\ 0 < n2 /\ sender c <> q /\
    s' = created (sender c) q asset n1 n2 r k s.
Proof.
  unfold succeeds. split.
  - intros H.
    destruct (create_trust_line_Ok_args _ _ _ H)
      as (q & asset & n1 & n2 & r & k & Hq & Hasset & Hn1 & Hn2 & Hr & Hk & Hroom).
    rewrite (create_trust_line_eq c s q asset n1 n2 r k) in H by done.
    exists q, asset, n1, n2, r, k.
    repeat case_bool_decide; cbn [andb] in H; try discriminate.
    injection H as <-. repeat split; auto; lia.
  - intros (q & asset & n1 & n2 & r & k & Hq & Hasset & Hn1 & Hn2 & Hr & Hk
            & Hroom & H1 & H2 & Hne & ->).
    rewrite (create_trust_line_eq c s q asset n1 n2 r k) by done.
    by rewrite !bool_decide_eq_true_2 by done.
Qed.

Lemma create_trust_line_iff_witness :
  succeeds create_trust_line (create_call 100 100) deployed
    (created alice bob 1 100 100 1 0 deployed).
Proof.
  apply (proj2 (create_trust_line_iff (create_call 100 100) deployed _)).
  exists bob, 1, 100, 100, 1, 0.
  repeat apply conj; first [lia | discriminate | vm_compute; reflexivity].
Defined.

(** ** Reading operations *)

(** X14. On a record that holds 64-bit unsigned integers, a [credit] call is
    approved exactly when the balance is within the limits,
    [-limit2 <= balance <= limit1], and it changes nothing: beyond [limit1]
    the difference [limit1_val - current_balance] has no value. *)
Theorem get_available_credit_iff c s q l1 l2 b :
  arg c 1 = Some q ->
  local_value s (account1_of (sender c) q) "limit1" = VUint l1 ->
  local_value s (account1_of (sender c) q) "limit2" = VUint l2 ->
  local_value s (account1_of (sender c) q) "balance" = VUint b ->
  0 <= l1 < 2 ^ 64 -> 0 <= l2 < 2 ^ 64 -> 0 <= b < 2 ^ 64 ->
  forall s', succeeds get_available_credit c s s' <-> (- l2 <= b <= l1 /\ s' = s).
Proof.
  intros Hq Hl1 Hl2 Hb H1 H2 Hb64 s'. unfold succeeds. split.
  - intros H. pose proof (get_available_credit_Ok _ _ _ H) as Hf.
    injection Hf as <-. split; [|done]. split; [lia|].
    unfold get_available_credit in H. cbv zeta in H.
    unfold tl_balance, tl_limit1, tl_limit2 in H.
    apply Seq_cons_Ok in H as [(s1 & Ha & _)|(? & ? & Ha & _)];
      [|apply Assert_Ok in Ha as [? _]; discriminate].
    apply Assert_Ok in Ha as [_ (n & Ha)].
    apply relation_Ok in Ha as (x & y & r & Hx & _ & _).
    apply If_Ok_branch in Hx as (t & Hc & Hbr).
    erewrite eval_Ge in Hc by eval_expr.
    rewrite bool_decide_eq_true_2 in Hc by lia. injection Hc as <-.
    destruct Hbr as [[? _]|[_ Hm]]; [done|].
    apply arith_Ok in Hm as (m1 & m2 & Hm1 & Hm2 & Hr & _).
    erewrite eval_localGet_as in Hm1 by (eval_expr || eassumption).
    erewrite eval_localGet_as in Hm2 by (eval_expr || eassumption).
    injection Hm1 as <-. injection Hm2 as <-. lia.
  - intros [Hin ->]. unfold get_available_credit. cbv zeta.
    unfold tl_balance, tl_limit1, tl_limit2.
    rewrite exec_Seq_cons. erewrite exec_Assert.
    2: { eapply eval_Ge; [|eval_expr].
         eapply eval_If_true; [|eval_expr].
         erewrite eval_Ge by eval_expr. by rewrite bool_decide_eq_true_2 by lia. }
    rewrite bool_decide_eq_true_2 by lia.
    rewrite exec_Seq_cons.
    destruct (decide (b <= 0)) as [Hz|Hp].
    + erewrite exec_Assert.
      2: { eapply eval_Ge; [|eval_expr].
           eapply eval_If_true; [|eval_expr].
           erewrite eval_Le by eval_expr. by rewrite bool_decide_eq_true_2 by lia. }
      rewrite bool_decide_eq_true_2 by lia. seq_step. done.
    + erewrite exec_Assert.
      2: { eapply eval_Ge; [|eval_expr].
           eapply eval_If_false; [|eval_expr].
           erewrite eval_Le by eval_expr. by rewrite bool_decide_eq_false_2 by lia. }
      rewrite bool_decide_eq_true_2 by lia. seq_step. done.
Qed.

Lemma get_available_credit_iff_witness :
  succeeds get_available_credit (call_of alice ["credit"; bob] 1) line_100 line_100.
Proof.
  refine (proj2 (get_available_credit_iff (call_of alice ["credit"; bob] 1)
                   line_100 bob 100 100 0 _ _ _ _ _ _ _ line_100) _);
    first [lia | reflexivity | vm_compute; reflexivity | split; [lia | reflexivity]].
Defined.

(** X15. The three reading operations never write: whenever [balance],
    [credit] or [asa_opt] does not fail, it returns 1 and leaves the state as
    it was; [balance] is approved for every call, even one without a
    counterparty argument, and [asa_opt] exactly when the asset id is
    positive. *)
Theorem reading_operations_do_not_write c s :
  get_balance c s = Ok (Returned (VUint 1) s) /\
  (forall f, get_available_credit c s = Ok f -> f = Returned (VUint 1) s) /\
  (forall f, asa_opt_in c s = Ok f -> f = Returned (VUint 1) s) /\
  (forall n, arg_uint c 1 = Some n ->
     asa_opt_in c s = if bool_decide (0 < n) then Ok (Returned (VUint 1) s)
                      else Err AssertFailed).
Proof.
  repeat split.
  - apply get_available_credit_Ok.
  - apply asa_opt_in_Ok.
  - intros n Hn. unfold asa_opt_in. cbv zeta.
    seq_step. destruct (bool_decide (0 < n)); [|done]. seq_step. done.
Qed.

Lemma reading_operations_do_not_write_witness :
  asa_opt_in (call_of alice ["asa_opt"; uint_arg 0] 1) line_100 = Err AssertFailed.
Proof.
  refine (proj2 (proj2 (proj2 (reading_operations_do_not_write
            (call_of alice ["asa_opt"; uint_arg 0] 1) line_100))) 0 _).
  vm_compute. reflexivity.
Defined.

(** ** The creation counter *)

Lemma subroutine_globals o c s s' :
  succeeds (subroutine o) c s s' ->
  match o with
  | op_create =>
      exists k, global_value s "next_tl_id" = VUint k /\
                global_value s' "next_tl_id" = VUint (k + 1)
  | _ => globals s' = globals s
  end.
Proof.
  unfold succeeds. destruct o; simpl; intros H.
  - destruct (create_trust_line_Ok_args _ _ _ H)
      as (q & asset & n1 & n2 & r & k & Hq & Hasset & Hn1 & Hn2 & Hr & Hk & Hroom).
    rewrite (create_trust_line_eq c s q asset n1 n2 r k) in H by done.
    destruct (_ && _ && _); [|done]. injection H as <-.
    exists k. split; [done|]. unfold created, global_value, set_global. simpl.
    by rewrite lookup_insert_eq.
  - destruct (send_payment_Ok_args _ _ _ H)
      as (q & amt & b & l1 & l2 & Hq & Hamt & Hb & Hl1 & Hl2 & Hlow & Hnb & Hneg).
    rewrite (send_payment_eq c s q amt l1 l2 b) in H by done. cbv zeta in H.
    destruct (_ && _ && _); [|done]. by injection H as <-.
  - destruct (send_rippling_succeeds_inv c s s' H) as (n & amt & _ & _ & _ & _ & _ & _ & ->).
    done.
  - destruct (update_quality_Ok_args _ _ _ H) as (q & qi & qo & Hq & Hqi & Hqo).
    rewrite (update_quality_eq c s q qi qo) in H by done.
    destruct (_ && _ && _ && _); [|done]. by injection H as <-.
  - destruct (update_rippling_Ok_args _ _ _ H) as (q & r & Hq & Hr).
    rewrite (update_rippling_eq c s q r) in H by done.
    destruct (_ || _); [|done]. by injection H as <-.
  - destruct (update_limits_Ok_args _ _ _ H) as (q & n1 & n2 & b & Hq & Hn1 & Hn2 & Hb & Hneg).
    rewrite (update_limits_eq c s q n1 n2 b) in H by done.
    destruct (_ && _ && _ && _); [|done]. by injection H as <-.
  - destruct (freeze_trust_line_Ok_args _ _ _ H) as (q & adm & Hq & Hadm).
    rewrite (freeze_trust_line_eq c s q adm Hq Hadm) in H.
    destruct (bool_decide _); [|done]. by injection H as <-.
  - rewrite get_balance_eq in H. by injection H as <-.
  - apply get_available_credit_Ok in H. by injection H as <-.
  - apply asa_opt_in_Ok in H. by injection H as <-.
  - destruct (settle_with_asa_Ok_args _ _ _ H) as (q & amt & b & Hq & Hamt & Hb & Hlow & Hnb).
    rewrite (settle_with_asa_eq c s q amt b Hq Hamt Hb Hlow Hnb) in H.
    destruct (_ && _); [|done]. by injection H as <-.
Qed.

(** X16. The creation counter counts the approved [create] calls: after any
    sequence of approved calls it has grown by the number of [create] calls
    in the sequence, duplicates of an existing line included, and no other
    operation moves it. *)
Theorem counter_counts_creates calls : forall s s' k,
  global_value s "next_tl_id" = VUint k ->
  run_calls calls s = Some s' ->
  global_value s' "next_tl_id" = VUint (k + count_creates calls).
Proof.
  induction calls as [|[o c] rest IH]; intros s s' k Hk Hrun.
  - simpl in Hrun. injection Hrun as <-. rewrite Hk. f_equal.
    unfold count_creates. simpl. lia.
  - simpl in Hrun.
    destruct (subroutine o c s) as [[|v s1]|] eqn:Hstep; try done.
    destruct v as [n|]; try done.
    destruct (decide (n = 1)) as [->|Hn]; [|destruct n as [|[]|]; done].
    pose proof (subroutine_globals o c s s1 Hstep) as Hg.
    assert (Hnext : global_value s1 "next_tl_id"
                    = VUint (k + count_creates [(o, c)])).
    { destruct o; try (unfold global_value; rewrite Hg; fold (global_value s "next_tl_id");
                       rewrite Hk; f_equal; unfold count_creates; simpl; lia).
      destruct Hg as (k' & Hk' & Hk1). rewrite Hk1. f_equal.
      assert (k' = k) as -> by congruence. unfold count_creates. simpl. lia. }
    rewrite (IH (mkState (globals s1) (locals s1) ∅) s' _ Hnext Hrun). f_equal.
    unfold count_creates. simpl. destruct o; simpl; lia.
Qed.

Lemma counter_counts_creates_witness :
  global_value
    (after [(op_create, create_call 100 100); (op_limits, limits_call 50 60);
            (op_create, create_call 100 100)]) "next_tl_id" = VUint 2.
Proof.
  apply (counter_counts_creates
           [(op_create, create_call 100 100); (op_limits, limits_call 50 60);
            (op_create, create_call 100 100)] deployed _ 0);
    vm_compute; reflexivity.
Defined.

(** ** Which record an operation finds, and what payments it admits *)

(** X17. The record of a line is found by its low account alone, and
    [limits] does not ask who calls.  Two [limits] calls with the same new
    limits, in groups of the same size, whose pairs have the same low account
    are the same call: if one is approved so is the other, with the same
    resulting state, whoever the sender and the other account of the pair
    are. *)
Theorem update_limits_sees_only_the_low_account c c' s s' q q' :
  arg c 1 = Some q -> arg c' 1 = Some q' ->
  arg_uint c' 2 = arg_uint c 2 -> arg_uint c' 3 = arg_uint c 3 ->
  group_size c' = group_size c ->
  account1_of (sender c') q' = account1_of (sender c) q ->
  succeeds update_limits c s s' -> succeeds update_limits c' s s'.
Proof.
  unfold succeeds. intros Hq Hq' H2 H3 Hsize Ha H.
  destruct (update_limits_Ok_args _ _ _ H)
    as (q0 & n1 & n2 & b & Hq0 & Hn1 & Hn2 & Hb & Hneg).
  assert (q0 = q) as -> by congruence.
  rewrite (update_limits_eq c s q n1 n2 b Hq Hn1 Hn2 Hb Hneg) in H.
  rewrite <- Ha in Hb. rewrite <- H2 in Hn1. rewrite <- H3 in Hn2.
  rewrite (update_limits_eq c' s q' n1 n2 b Hq' Hn1 Hn2 Hb Hneg).
  by rewrite Hsize, Ha.
Qed.

Lemma update_limits_sees_only_the_low_account_witness :
  succeeds update_limits (call_of carol ["limits"; alice; uint_arg 50; uint_arg 60] 2)
    line_100
    (set_local alice "limit2" (VUint 60) (set_local alice "limit1" (VUint 50) line_100)).
Proof.
  apply (update_limits_sees_only_the_low_account
           (limits_call 50 60)
           (call_of carol ["limits"; alice; uint_arg 50; uint_arg 60] 2)
           line_100 _ bob alice);
    vm_compute; reflexivity.
Defined.

(** X18. On a record whose limits and balance all read 0, which is what a
    pair that never had a line reads, and what a line frozen at balance 0
    holds, no payment is approved, whatever the amount and the direction. *)
Theorem send_payment_needs_credit c s q :
  arg c 1 = Some q ->
  local_value s (account1_of (sender c) q) "limit1" = VUint 0 ->
  local_value s (account1_of (sender c) q) "limit2" = VUint 0 ->
  local_value s (account1_of (sender c) q) "balance" = VUint 0 ->
  forall s', ~ succeeds send_payment c s s'.
Proof.
  unfold succeeds. intros Hq Hl1 Hl2 Hb s' H.
  refine (send_payment_refused c s q _ Hq _ H).
  exists 0, 0. repeat split; auto.
Qed.

Lemma send_payment_needs_credit_witness :
  ~ succeeds send_payment (send_call carol bob 1) line_100 line_100.
Proof.
  apply (send_payment_needs_credit (send_call carol bob 1) line_100 bob);
    vm_compute; reflexivity.
Defined.

(** X19. No payment is ever approved.  On a ledger that started without
    local state, whatever calls were approved since, every [send] is
    rejected, whatever its sender, its recipient and its amount: a line
    that has credit has [limit2 > 0], for which [Int(0) - limit2_val] has no
    value, and a line without credit admits nothing. *)
Theorem no_payment_is_ever_approved calls s0 s c :
  locals s0 = ∅ -> run_calls calls s0 = Some s ->
  forall s', ~ succeeds send_payment c s s'.
Proof.
  unfold succeeds. intros Hempty Hrun s' H.
  destruct (send_payment_Ok_args _ _ _ H) as (q & amt & b & l1 & l2 & Hq & _).
  refine (send_payment_refused c s q _ Hq _ H).
  by apply (reachable_line_inv calls s0).
Qed.

Lemma no_payment_is_ever_approved_witness :
  ~ succeeds send_payment (send_call alice bob 40) line_100
      (set_local alice "balance" (VUint 40) line_100).
Proof.
  apply (no_payment_is_ever_approved [(op_create, create_call 100 100)] deployed
           line_100 (send_call alice bob 40));
    vm_compute; reflexivity.
Defined.

(** X20. Every balance stays 0.  On a ledger that started without local
    state, whatever calls were approved since, the balance of every record
    reads 0, and every [settle] is rejected: a positive amount cannot be
    subtracted from 0. *)
Theorem balances_stay_zero calls s0 s :
  locals s0 = ∅ -> run_calls calls s0 = Some s ->
  (forall a, local_value s a "balance" = VUint 0) /\
  (forall c s', ~ succeeds settle_with_asa c s s').
Proof.
  intros Hempty Hrun. split.
  - intros a.
    by destruct (reachable_line_inv calls s0 s a Hempty Hrun) as (l1 & l2 & _ & _ & Hb & _).
  - intros c s' H. pose proof H as H'. unfold succeeds in H'.
    destruct (settle_with_asa_Ok_args _ _ _ H') as (q & amt & b & Hq & _).
    refine (settle_with_asa_refused c s q s' Hq _ H).
    by apply (reachable_line_inv calls s0).
Qed.

Lemma balances_stay_zero_witness :
  local_value frozen_line alice "balance" = VUint 0.
Proof.
  refine (proj1 (balances_stay_zero
                   [(op_create, create_call 100 100); (op_freeze, freeze_call)]
                   deployed frozen_line _ _) alice);
    vm_compute; reflexivity.
Defined.

(** ** Integers as bytes *)

Lemma be_value_be_bytes k : forall acc n,
  be_value acc (be_bytes k n) = acc * 256 ^ Z.of_nat k + n mod 256 ^ Z.of_nat k.
Proof.
  induction k as [|k IH]; intros acc n.
  - simpl. rewrite Z.mod_1_r. lia.
  - cbn [be_bytes be_value]. rewrite IH.
    assert (H256 : 0 < 256 ^ Z.of_nat k) by (apply Z.pow_pos_nonneg; lia).
    rewrite N_ascii_embedding.
    2: { pose proof (Z.mod_pos_bound (n / 256 ^ Z.of_nat k) 256 ltac:(lia)). lia. }
    rewrite Z2N.id by (apply Z.mod_pos_bound; lia).
    replace (Z.of_nat (S k)) with (Z.of_nat k + 1) by lia.
    rewrite Z.pow_add_r by lia. rewrite Z.pow_1_r.
    rewrite (Z.rem_mul_r n (256 ^ Z.of_nat k) 256) by lia. lia.
Qed.

Lemma be_bytes_length k n : String.length (be_bytes k n) = k.
Proof. induction k as [|k IH]; simpl; [done | by rewrite IH]. Qed.

Lemma eval_Btoi c s (e : Expr) b :
  e c s = Ok (VBytes b) -> (String.length b <= 8)%nat ->
  Btoi e c s = Ok (VUint (be_value 0 b)).
Proof.
  intros He Hlen. unfold Btoi. rewrite He. simpl.
  by destruct (Nat.leb_spec (String.length b) 8); [|lia].
Qed.

Lemma be_value_be_bytes_8 n : 0 <= n < 2 ^ 64 -> be_value 0 (be_bytes 8 n) = n.
Proof.
  intros Hn. rewrite (be_value_be_bytes 8 0 n).
  change (256 ^ Z.of_nat 8) with (2 ^ 64). rewrite Z.mod_small by done. lia.
Qed.

(** X21. [Btoi] undoes [Itob] on every integer that fits 64 bits: the eight
    bytes that [Itob] produces decode to the integer they came from.  In the
    other direction [Btoi] accepts at most eight bytes, so every decoded
    argument is in [0, 2^64). *)
Theorem Btoi_Itob_round_trip (e : Expr) c s n :
  e c s = Ok (VUint n) -> 0 <= n < 2 ^ 64 ->
  Btoi (Itob e) c s = Ok (VUint n) /\
  (forall i m, Btoi (Txn_application_args i) c s = Ok (VUint m) -> 0 <= m < 2 ^ 64).
Proof.
  intros He Hn. split.
  - rewrite (eval_Btoi c s (Itob e) (be_bytes 8 n)).
    + by rewrite be_value_be_bytes_8.
    + by apply eval_Itob.
    + by rewrite be_bytes_length.
  - intros i m H. apply Btoi_arg_Ok in H as (m' & Hm & [= ->]).
    by eapply arg_uint_range.
Qed.

Lemma Btoi_Itob_round_trip_witness :
  Btoi (Itob (Int 1000000)) (create_call 100 100) deployed = Ok (VUint 1000000).
Proof.
  refine (proj1 (Btoi_Itob_round_trip (Int 1000000) (create_call 100 100) deployed
                   1000000 _ _)); [reflexivity | lia].
Defined.

(** X22. The asset id that [create] stores, as the eight bytes of [Itob],
    reads back under [Btoi] as the asset id the call passed. *)
Theorem stored_asset_id_reads_back c s s' :
  succeeds create_trust_line c s s' ->
  exists asset,
    arg_uint c 2 = Some asset /\
    Btoi (App_localGet
            (If (Txn_sender < Txn_application_args 1) Txn_sender (Txn_application_args 1))
            tl_asset_id) c s' = Ok (VUint asset).
Proof.
  unfold succeeds. intros H.
  destruct (create_trust_line_Ok_args _ _ _ H)
    as (q & asset & n1 & n2 & r & k & Hq & Hasset & Hn1 & Hn2 & Hr & Hk & Hroom).
  rewrite (create_trust_line_eq c s q asset n1 n2 r k) in H by done.
  destruct (_ && _ && _); [|done]. injection H as <-.
  exists asset. split; [done|].
  rewrite (eval_Btoi c _ _ (be_bytes 8 asset)).
  - rewrite be_value_be_bytes_8; [done | by eapply arg_uint_range].
  - eapply eval_localGet_as; [by apply eval_account1 | apply eval_Bytes |].
    unfold created. cbv zeta. rewrite local_value_set_global. by local_simpl.
  - by rewrite be_bytes_length.
Qed.

Lemma stored_asset_id_reads_back_witness :
  exists asset,
    arg_uint (create_call 100 100) 2 = Some asset /\
    Btoi (App_localGet
            (If (Txn_sender < Txn_application_args 1) Txn_sender (Txn_application_args 1))
            tl_asset_id) (create_call 100 100) line_100 = Ok (VUint asset).
Proof.
  apply (stored_asset_id_reads_back (create_call 100 100) deployed line_100).
  vm_compute. reflexivity.
Defined.

(** ** Rippling, in full *)

(** X23. A [ripple] call is approved exactly when the number of hops is
    between 1 and 6, the amount is positive, each of the hop identifiers
    the number of hops announces is there and 32 bytes long, and the product
    [amount * 999000] fits 64 bits; arguments past the announced hops are not
    looked at.  It then leaves, in scratch space only, the amount decayed
    once. *)
Theorem send_rippling_iff c s s' :
  succeeds send_rippling c s s' <->
  exists n amt,
    arg_uint c 1 = Some n /\ arg_uint c 2 = Some amt /\
    0 < n <= 6 /\ 0 < amt /\ hops_ok c n = true /\ amt * 999000 < 2 ^ 64 /\
    s' = set_scratch 0 (VUint (amt * 999000 / 1000000)) (set_scratch 0 (VUint amt) s).
Proof.
  split; [apply send_rippling_succeeds_inv|].
  intros (n & amt & Hn & Hamt & [H0 H6] & Hpos & Hhops & Hfit & ->). unfold succeeds.
  pose proof (send_rippling_cases c s n amt Hn Hamt) as Hc.
  by rewrite !bool_decide_eq_true_2, Hhops in Hc by done.
Qed.

Lemma send_rippling_iff_witness :
  succeeds send_rippling
    (call_of alice ["ripple"; uint_arg 1; uint_arg 1000; carol; "junk"] 1) deployed
    (set_scratch 0 (VUint 999) (set_scratch 0 (VUint 1000) deployed)).
Proof.
  apply (proj2 (send_rippling_iff
                  (call_of alice ["ripple"; uint_arg 1; uint_arg 1000; carol; "junk"] 1)
                  deployed _)).
  exists 1, 1000.
  repeat apply conj; first [lia | vm_compute; reflexivity].
Defined.

(** ** Limits over time *)

(** X24. Whatever calls are approved on a ledger that started without local
    state, [settle] and [freeze] included, every record keeps integers in its
    limit and balance fields, and its two limits are never negative. *)
Theorem limits_are_never_negative calls s s' a :
  locals s = ∅ -> run_calls calls s = Some s' ->
  exists l1 l2 b,
    local_value s' a "limit1" = VUint l1 /\
    local_value s' a "limit2" = VUint l2 /\
    local_value s' a "balance" = VUint b /\
    0 <= l1 /\ 0 <= l2.
Proof.
  intros Hempty Hrun.
  revert s Hrun Hempty.
  assert (Hgen : forall calls s, line_typed s a -> run_calls calls s = Some s' ->
                   line_typed s' a).
  { clear calls. induction calls as [|[o c] rest IH]; intros s Hs Hrun.
    - simpl in Hrun. by injection Hrun as <-.
    - simpl in Hrun.
      destruct (subroutine o c s) as [[|v s1]|] eqn:Hstep; try done.
      destruct v as [n|]; try done.
      destruct (decide (n = 1)) as [->|Hn]; [|destruct n as [|[]|]; done].
      eapply IH; [|exact Hrun].
      destruct (step_typed o c s s1 a Hstep Hs) as (l1 & l2 & b & E1 & E2 & Eb & Hrest).
      by exists l1, l2, b. }
  intros s Hrun Hempty. eapply Hgen; [|exact Hrun].
  exists 0, 0, 0. unfold local_value. rewrite Hempty, !lookup_empty. done.
Qed.

Lemma limits_are_never_negative_witness :
  exists l1 l2 b,
    local_value frozen_line alice "limit1" = VUint l1 /\
    local_value frozen_line alice "limit2" = VUint l2 /\
    local_value frozen_line alice "balance" = VUint b /\
    0 <= l1 /\ 0 <= l2.
Proof.
  apply (limits_are_never_negative
           [(op_create, create_call 100 100); (op_freeze, freeze_call)]
           deployed frozen_line alice);
    vm_compute; reflexivity.
Defined.

(** ** Which fields an operation writes *)

Lemma lookup_set_local_key a k v s a' k' :
  k <> k' -> locals (set_local a k v s) !! (a', k') = locals s !! (a', k').
Proof. intros Hk. unfold set_local. simpl. rewrite lookup_insert_ne; [done|congruence]. Qed.

Ltac keys H :=
  simpl in H;
  repeat (apply not_elem_of_cons in H as [? H]);
  repeat (rewrite lookup_set_local_key by done).

Lemma subroutine_writes o c s s' a k :
  succeeds (subroutine o) c s s' -> k ∉ writes o ->
  locals s' !! (a, k) = locals s !! (a, k).
Proof.
  unfold succeeds. destruct o; simpl subroutine; intros H Hk.
  - destruct (create_trust_line_Ok_args _ _ _ H)
      as (q & asset & n1 & n2 & r & k0 & Hq & Hasset & Hn1 & Hn2 & Hr & Hk0 & Hroom).
    rewrite (create_trust_line_eq c s q asset n1 n2 r k0) in H by done.
    destruct (_ && _ && _); [|done]. injection H as <-.
    unfold created. cbv zeta. change (locals (set_global ?k ?v ?s)) with (locals s).
    by keys Hk.
  - destruct (send_payment_Ok_args _ _ _ H)
      as (q & amt & b & l1 & l2 & Hq & Hamt & Hb & Hl1 & Hl2 & Hlow & Hnb & Hneg).
    rewrite (send_payment_eq c s q amt l1 l2 b) in H by done. cbv zeta in H.
    destruct (_ && _ && _); [|done]. injection H as <-. by keys Hk.
  - by destruct (send_rippling_succeeds_inv c s s' H)
      as (n & amt & _ & _ & _ & _ & _ & _ & ->).
  - destruct (update_quality_Ok_args _ _ _ H) as (q & qi & qo & Hq & Hqi & Hqo).
    rewrite (update_quality_eq c s q qi qo) in H by done.
    destruct (_ && _ && _ && _); [|done]. injection H as <-. by keys Hk.
  - destruct (update_rippling_Ok_args _ _ _ H) as (q & r & Hq & Hr).
    rewrite (update_rippling_eq c s q r) in H by done.
    destruct (_ || _); [|done]. injection H as <-. by keys Hk.
  - destruct (update_limits_Ok_args _ _ _ H) as (q & n1 & n2 & b & Hq & Hn1 & Hn2 & Hb & Hneg).
    rewrite (update_limits_eq c s q n1 n2 b) in H by done.
    destruct (_ && _ && _ && _); [|done]. injection H as <-. by keys Hk.
  - destruct (freeze_trust_line_Ok_args _ _ _ H) as (q & adm & Hq & Hadm).
    rewrite (freeze_trust_line_eq c s q adm Hq Hadm) in H.
    destruct (bool_decide _); [|done]. injection H as <-. unfold frozen. by keys Hk.
  - rewrite get_balance_eq in H. by injection H as <-.
  - apply get_available_credit_Ok in H. by injection H as <-.
  - apply asa_opt_in_Ok in H. by injection H as <-.
  - destruct (settle_with_asa_Ok_args _ _ _ H) as (q & amt & b & Hq & Hamt & Hb & Hlow & Hnb).
    rewrite (settle_with_asa_eq c s q amt b Hq Hamt Hb Hlow Hnb) in H.
    destruct (_ && _); [|done]. injection H as <-. by keys Hk.
Qed.

(** X25. Each operation writes only its own fields: [send] and [settle] the
    balance, [quality] the two qualities, [ripple_set] the flag, [limits]
    the two limits, [freeze] the flag and the two limits, and [ripple],
    [balance], [credit] and [asa_opt] no field at all.  Every other stored
    field of every record is what it was before the call, and global state is
    written by [create] alone. *)
Theorem operation_writes_only_its_fields o c s s' :
  succeeds (subroutine o) c s s' ->
  (forall a k, k ∉ writes o -> locals s' !! (a, k) = locals s !! (a, k)) /\
  (o <> op_create -> globals s' = globals s).
Proof.
  intros H. split.
  - intros a k Hk. exact (subroutine_writes o c s s' a k H Hk).
  - intros Hne. pose proof (subroutine_globals o c s s' H) as Hg.
    by destruct o.
Qed.

Lemma operation_writes_only_its_fields_witness :
  locals frozen_line !! (alice, "balance") = locals line_100 !! (alice, "balance").
Proof.
  refine (proj1 (operation_writes_only_its_fields op_freeze freeze_call
                   line_100 frozen_line _) alice "balance" _).
  - vm_compute. reflexivity.
  - simpl. intros H. repeat (apply elem_of_cons in H as [H|H]; [discriminate|]).
    by apply elem_of_nil in H.
Defined.

(** ** Qualities stay in range *)

Lemma quality_put a' k' v s a k :
  k' <> k \/ (exists n, v = VUint n /\ 0 < n <= 1000000) ->
  quality_in_range s a k -> quality_in_range (set_local a' k' v s) a k.
Proof.
  unfold quality_in_range, set_local. simpl. intros Hput Hs.
  rewrite lookup_insert. case_decide as Heq; [|done].
  injection Heq as -> ->. destruct Hput as [?|(n & -> & ?)]; done.
Qed.

Ltac quality_puts :=
  repeat (apply quality_put;
          [first [left; done | right; eexists; split; [reflexivity | lia]]|]).

Lemma step_quality o c s s' a k :
  k = "q_in" \/ k = "q_out" ->
  succeeds (subroutine o) c s s' -> quality_in_range s a k -> quality_in_range s' a k.
Proof.
  intros Hk H Hs.
  destruct (decide (k ∈ writes o)) as [Hin|Hout].
  2: { unfold quality_in_range.
       by rewrite (subroutine_writes o c s s' a k H Hout). }
  unfold succeeds in H. destruct o; simpl in Hin; simpl subroutine in H;
    try (destruct Hk as [-> | ->];
         repeat (apply elem_of_cons in Hin as [Hin|Hin]; [discriminate|]);
         by apply elem_of_nil in Hin).
  - destruct (create_trust_line_Ok_args _ _ _ H)
      as (q & asset & n1 & n2 & r & k0 & Hq & Hasset & Hn1 & Hn2 & Hr & Hk0 & Hroom).
    rewrite (create_trust_line_eq c s q asset n1 n2 r k0) in H by done.
    destruct (_ && _ && _); [|done]. injection H as <-.
    unfold created. cbv zeta.
    change (quality_in_range (set_global ?g ?v ?s) a k) with (quality_in_range s a k).
    destruct Hk as [-> | ->]; by quality_puts.
  - destruct (update_quality_Ok_args _ _ _ H) as (q & qi & qo & Hq & Hqi & Hqo).
    rewrite (update_quality_eq c s q qi qo) in H by done.
    repeat case_bool_decide; cbn [andb] in H; try done. injection H as <-.
    destruct Hk as [-> | ->]; by quality_puts.
Qed.

(** X26. Qualities stay in range: on a ledger that started without local
    state, after any sequence of approved calls each quality field that is
    there holds an integer in (0, 1000000]. *)
Theorem qualities_stay_in_range calls s s' a k :
  locals s = ∅ -> k = "q_in" \/ k = "q_out" ->
  run_calls calls s = Some s' -> quality_in_range s' a k.
Proof.
  intros Hempty Hk Hrun.
  assert (Hgen : forall calls s, quality_in_range s a k ->
                   run_calls calls s = Some s' -> quality_in_range s' a k).
  { clear calls s Hempty Hrun.
    induction calls as [|[o c] rest IH]; intros s Hs Hrun.
    - simpl in Hrun. by injection Hrun as <-.
    - simpl in Hrun.
      destruct (subroutine o c s) as [[|v s1]|] eqn:Hstep; try done.
      destruct v as [n|]; try done.
      destruct (decide (n = 1)) as [->|Hn]; [|destruct n as [|[]|]; done].
      eapply IH; [|exact Hrun].
      exact (step_quality o c s s1 a k Hk Hstep Hs). }
  eapply Hgen; [|exact Hrun]. unfold quality_in_range. by rewrite Hempty, lookup_empty.
Qed.

Lemma qualities_stay_in_range_witness :
  quality_in_range frozen_line alice "q_in".
Proof.
  apply (qualities_stay_in_range
           [(op_create, create_call 100 100); (op_freeze, freeze_call)]
           deployed frozen_line alice "q_in");
    first [by left | vm_compute; reflexivity].
Defined.
